(** * Data-access layer of the AMS dashboard: cache, request coalescing,
      HTTP retry policy, referential bootstrap and dashboard aggregation.

    Shallow embedding of
      - src/api/amsCache.ts      (module [Cache])
      - src/api/amsClient.ts     (module [Client])
      - src/api/amsBootstrap.ts  (module [Bootstrap])
      - src/api/amsEndpoints.ts  (module [Endpoints], aggregation helper)

    The module-level [let]/[const] bindings of each TypeScript module become
    the fields of a state record that is threaded explicitly.  JavaScript is
    single threaded: every function body below is one uninterrupted
    synchronous section, and asynchronous continuations ([.then], [.finally],
    the code after an [await]) are separate transitions fired by the
    environment.

    Conventions of the embedding:
      - [Date.now()] gives the same reading throughout one synchronous
        section; the clock moves between sections;
      - [localStorage] calls succeed (the [try]/[catch] around them only
        matters when the browser refuses the call);
      - a [fetcher] returns a promise and an [onUnauthorized] callback
        returns to its caller, as their types [() => Promise<T>] and
        [() => void] say;
      - [console] output is not recorded. *)

From Stdlib Require Import ZArith String List Bool Lia.
From stdpp Require Import gmap strings list fin_maps pretty sorting.
Import ListNotations.

Local Open Scope Z_scope.

(** Payloads ([T], [unknown] in the source) are JSON-like values; [VNull] is
    JavaScript's [null], which the cache read path cannot tell apart from a
    miss. *)
#[warnings="-register-all"]
Inductive Value :=
| VNull
| VNum (n : Z)
| VStr (s : string)
| VArr (items : list Value).

Definition is_null (v : Value) : bool :=
  match v with VNull => true | _ => false end.

(* ===================================================================== *)
(** * amsCache.ts *)
(* ===================================================================== *)

Module Cache.

(** [interface CacheEntry<T>] and [interface StoredCacheEntry<T>] have the
    same three fields. *)
Record CacheEntry := mkEntry {
  data : Value;
  timestamp : Z;
  ttl : Z;
}.

(** [CACHE_TTL] *)
Definition REFERENTIALS : Z := 86400000.
Definition DEFAULT : Z := 300000.
Definition SHORT : Z := 60000.
Definition NONE : Z := 0.

(** [const STORAGE_PREFIX = 'ams_cache_'] *)
Definition STORAGE_PREFIX : string := "ams_cache_".

(** Texts held by [localStorage].  [EntryText e] is the text
    [JSON.stringify] produces for the entry [e] (and [JSON.parse] reads back
    as [e]); [PlainText s] is any other text: the session token, the session
    settings, a corrupted cache item.  The cache only parses what sits under
    its own prefix, where a plain text is a corrupted item and makes
    [JSON.parse] throw. *)
Inductive StoredText :=
| EntryText (e : CacheEntry)
| PlainText (s : string).

Definition JSON_stringify (e : CacheEntry) : StoredText := EntryText e.

(** [None] stands for the exception raised by [JSON.parse]. *)
Definition JSON_parse (t : StoredText) : option CacheEntry :=
  match t with
  | EntryText e => Some e
  | PlainText _ => None
  end.

(** [!stored] for a text read from the storage: only the empty string is
    falsy. *)
Definition falsy_text (t : StoredText) : bool :=
  match t with
  | PlainText EmptyString => true
  | _ => false
  end.

(** A promise as the coalescer sees it. *)
Inductive PromiseState :=
| Pending
| Fulfilled (v : Value)
| Rejected (reason : string).

(** One call of a [fetcher]: the promise [fetcher().then(data => ...)]
    together with what its two callbacks captured ([key], [ttl],
    [persistToStorage]). *)
Record Operation := mkOp {
  op_key : string;
  op_ttl : Z;
  op_persist : bool;
  op_state : PromiseState;
}.

(** Instrumentation: fetcher invocations and removals from the in-flight
    table, oldest first. *)
Inductive Effect :=
| FetcherCalled (key : string)
| InFlightDeleted (key : string).

Global Instance Effect_eq_dec : EqDecision Effect.
Proof. solve_decision. Defined.

Record State := mkState {
  memoryCache : gmap string CacheEntry;       (* const memoryCache *)
  inFlightRequests : gmap string nat;         (* const inFlightRequests *)
  localStorage : gmap string StoredText;      (* window.localStorage *)
  clock : Z;                                  (* what Date.now() returns *)
  operations : list Operation;                (* promises handed out so far *)
  log : list Effect;
}.

Definition initial : State :=
  {| memoryCache := ∅; inFlightRequests := ∅; localStorage := ∅;
     clock := 0; operations := []; log := [] |}.

(** ** A small state monad for the synchronous sections *)

Definition M (A : Type) : Type := State -> A * State.

Definition ret {A} (a : A) : M A := fun st => (a, st).

Definition bind {A B} (m : M A) (k : A -> M B) : M B :=
  fun st => let (a, st') := m st in k a st'.

Declare Scope cache_scope.
Delimit Scope cache_scope with cache.
Notation "x <- m ;; k" := (bind m (fun x => k))
  (at level 100, m at next level, right associativity) : cache_scope.
Notation "m ;;; k" := (bind m (fun _ => k))
  (at level 100, right associativity) : cache_scope.
Local Open Scope cache_scope.

Definition Date_now : M Z := fun st => (clock st, st).

Definition memory_get (key : string) : M (option CacheEntry) :=
  fun st => (memoryCache st !! key, st).

Definition memory_set (key : string) (e : CacheEntry) : M unit :=
  fun st =>
    (tt, {| memoryCache := <[key := e]> (memoryCache st);
            inFlightRequests := inFlightRequests st;
            localStorage := localStorage st; clock := clock st;
            operations := operations st; log := log st |}).

Definition memory_delete (key : string) : M unit :=
  fun st =>
    (tt, {| memoryCache := delete key (memoryCache st);
            inFlightRequests := inFlightRequests st;
            localStorage := localStorage st; clock := clock st;
            operations := operations st; log := log st |}).

Definition memory_clear : M unit :=
  fun st =>
    (tt, {| memoryCache := ∅;
            inFlightRequests := inFlightRequests st;
            localStorage := localStorage st; clock := clock st;
            operations := operations st; log := log st |}).

Definition with_storage (f : gmap string StoredText -> gmap string StoredText)
    (st : State) : State :=
  {| memoryCache := memoryCache st;
     inFlightRequests := inFlightRequests st;
     localStorage := f (localStorage st); clock := clock st;
     operations := operations st; log := log st |}.

(** [localStorage.getItem], [setItem], [removeItem] *)
Definition getItem (k : string) : M (option StoredText) :=
  fun st => (localStorage st !! k, st).

Definition setItem (k : string) (t : StoredText) : M unit :=
  fun st => (tt, with_storage (insert k t) st).

Definition removeItem (k : string) : M unit :=
  fun st => (tt, with_storage (delete k) st).

(** [localStorage.key(0)], ..., [localStorage.key(length - 1)]: every stored
    key once, in the (browser-defined) enumeration order. *)
Definition storage_keys (m : gmap string StoredText) : list string :=
  (map_to_list m).*1.

(** ** The cache store *)

(** [isValid(entry)] *)
Definition isValid (entry : option CacheEntry) : M bool :=
  match entry with
  | None => ret false
  | Some e =>
      if ttl e =? 0 then ret false
      else now <- Date_now ;; ret (now - timestamp e <? ttl e)
  end.

(** [getFromMemory(key)] *)
Definition getFromMemory (key : string) : M Value :=
  entry <- memory_get key ;;
  valid <- isValid entry ;;
  match entry with
  | Some e =>
      if valid then ret (data e)
      else memory_delete key ;;; ret VNull
  | None => ret VNull
  end.

(** [setInMemory(key, data, ttl)] *)
Definition setInMemory (key : string) (d : Value) (t : Z) : M unit :=
  now <- Date_now ;;
  memory_set key {| data := d; timestamp := now; ttl := t |}.

(** [getFromStorage(key)]; every exit of the [try] block and the [catch]
    handler return [null]. *)
Definition getFromStorage (key : string) : M Value :=
  stored <- getItem (STORAGE_PREFIX +:+ key) ;;
  match stored with
  | None => ret VNull
  | Some text =>
      if falsy_text text then ret VNull
      else
        match JSON_parse text with
        | None => ret VNull
        | Some entry =>
            now <- Date_now ;;
            if (0 <? ttl entry) && (now - timestamp entry <? ttl entry)
            then ret (data entry)
            else removeItem (STORAGE_PREFIX +:+ key) ;;; ret VNull
        end
  end.

(** [setInStorage(key, data, ttl)] *)
Definition setInStorage (key : string) (d : Value) (t : Z) : M unit :=
  now <- Date_now ;;
  setItem (STORAGE_PREFIX +:+ key)
          (JSON_stringify {| data := d; timestamp := now; ttl := t |}).

(** [get(key)] *)
Definition get (key : string) : M Value :=
  memResult <- getFromMemory key ;;
  if negb (is_null memResult) then ret memResult
  else
    storageResult <- getFromStorage key ;;
    if negb (is_null storageResult) then
      setInMemory key storageResult DEFAULT ;;; ret storageResult
    else ret VNull.

(** [set(key, data, ttl, persistToStorage)] *)
Definition set (key : string) (d : Value) (t : Z) (persistToStorage : bool)
  : M unit :=
  setInMemory key d t ;;;
  if persistToStorage && (0 <? t) then setInStorage key d t else ret tt.

(** [invalidate(key)] *)
Definition invalidate (key : string) : M unit :=
  memory_delete key ;;; removeItem (STORAGE_PREFIX +:+ key).

(** [keysToRemove.forEach(k => localStorage.removeItem(k))] *)
Fixpoint removeAll (keys : list string) : M unit :=
  match keys with
  | [] => ret tt
  | k :: rest => removeItem k ;;; removeAll rest
  end.

(** [clearAll()] *)
Definition clearAll : M unit :=
  memory_clear ;;;
  fun st =>
    let keysToRemove :=
      List.filter
        (fun key => negb (String.eqb key "") && String.prefix STORAGE_PREFIX key)
        (storage_keys (localStorage st)) in
    removeAll keysToRemove st.

(** ** The request coalescer *)

(** [getInFlight(key)] *)
Definition getInFlight (key : string) : M (option nat) :=
  fun st => (inFlightRequests st !! key, st).

(** [setInFlight(key, promise)]: the table write.  The callback handed to
    [promise.finally] is [finally_callback] below; it runs when the promise
    settles. *)
Definition setInFlight (key : string) (promise : nat) : M unit :=
  fun st =>
    (tt, {| memoryCache := memoryCache st;
            inFlightRequests := <[key := promise]> (inFlightRequests st);
            localStorage := localStorage st; clock := clock st;
            operations := operations st; log := log st |}).

(** [fetcher().then(data => { set(key, data, ttl, persistToStorage); return
    data; })]: the fetcher is invoked and a new pending promise is handed
    out; its identifier is its index in [operations]. *)
Definition call_fetcher (key : string) (t : Z) (persistToStorage : bool)
  : M nat :=
  fun st =>
    (length (operations st),
     {| memoryCache := memoryCache st;
        inFlightRequests := inFlightRequests st;
        localStorage := localStorage st; clock := clock st;
        operations := operations st ++ [mkOp key t persistToStorage Pending];
        log := log st ++ [FetcherCalled key] |}).

(** What a caller of the [async] function [deduplicatedFetch] holds: a
    promise already resolved with a value, or one that follows the promise
    [p] of the in-flight table. *)
Inductive Answer :=
| Ready (v : Value)
| Awaits (p : nat).

(** [deduplicatedFetch(key, fetcher, ttl, persistToStorage)], up to its
    [return]. *)
Definition deduplicatedFetch (key : string) (t : Z) (persistToStorage : bool)
  : M Answer :=
  cached <- get key ;;
  if negb (is_null cached) then ret (Ready cached)
  else
    inFlight <- getInFlight key ;;
    match inFlight with
    | Some p => ret (Awaits p)
    | None =>
        promise <- call_fetcher key t persistToStorage ;;
        setInFlight key promise ;;;
        ret (Awaits promise)
    end.

(** The callback of [promise.finally] registered by [setInFlight]. *)
Definition finally_callback (key : string) : M unit :=
  fun st =>
    (tt, {| memoryCache := memoryCache st;
            inFlightRequests := delete key (inFlightRequests st);
            localStorage := localStorage st; clock := clock st;
            operations := operations st;
            log := log st ++ [InFlightDeleted key] |}).

Definition settle_promise (p : nat) (s : PromiseState) : M unit :=
  fun st =>
    (tt, {| memoryCache := memoryCache st;
            inFlightRequests := inFlightRequests st;
            localStorage := localStorage st; clock := clock st;
            operations :=
              alter (fun op => mkOp (op_key op) (op_ttl op) (op_persist op) s)
                    p (operations st);
            log := log st |}).

(** How the fetcher's own promise ends. *)
Inductive Outcome :=
| Resolves (d : Value)
| Rejects (reason : string).

(** The fetcher's promise of operation [p] settles: on success the [.then]
    callback writes the cache and passes the data on, on failure the
    rejection passes through untouched; then the [.finally] callback runs.
    That callback is the first reaction registered on the promise (in
    [setInFlight], before [deduplicatedFetch] returns it), so it runs before
    any caller sees the outcome.  A promise settles at most once. *)
Definition settle (p : nat) (o : Outcome) : M unit :=
  fun st =>
    match operations st !! p with
    | Some (mkOp key t persistToStorage Pending) =>
        match o with
        | Resolves d =>
            (set key d t persistToStorage ;;;
             settle_promise p (Fulfilled d) ;;;
             finally_callback key) st
        | Rejects reason =>
            (settle_promise p (Rejected reason) ;;;
             finally_callback key) st
        end
    | _ => (tt, st)
    end.

(** The state a promise takes when the fetcher's promise ends as [o]. *)
Definition settled_as (o : Outcome) : PromiseState :=
  match o with
  | Resolves d => Fulfilled d
  | Rejects reason => Rejected reason
  end.

(** What a caller holding [a] observes. *)
Definition observed (a : Answer) (st : State) : PromiseState :=
  match a with
  | Ready v => Fulfilled v
  | Awaits p =>
      match operations st !! p with
      | Some op => op_state op
      | None => Pending
      end
  end.

(** The clock moves between synchronous sections. *)
Definition advance (d : Z) : M unit :=
  fun st =>
    (tt, {| memoryCache := memoryCache st;
            inFlightRequests := inFlightRequests st;
            localStorage := localStorage st; clock := clock st + d;
            operations := operations st; log := log st |}).

(** One further caller of [deduplicatedFetch] for the same key per element
    of [gaps]; before each call the clock moves by that element. *)
Fixpoint callers (key : string) (t : Z) (persistToStorage : bool)
    (gaps : list Z) : M (list Answer) :=
  match gaps with
  | [] => ret []
  | d :: rest =>
      advance d ;;;
      a <- deduplicatedFetch key t persistToStorage ;;
      others <- callers key t persistToStorage rest ;;
      ret (a :: others)
  end.

(** Number of recorded occurrences of an effect. *)
Definition occurrences (e : Effect) (st : State) : nat :=
  length (List.filter (fun e' => bool_decide (e' = e)) (log st)).

(** ** Predicates and states used in the statements *)

(** The durable tier holds an unexpired entry for [key] (at the current
    clock reading). *)
Definition durable_fresh (key : string) (st : State) : bool :=
  match localStorage st !! (STORAGE_PREFIX +:+ key) with
  | Some (EntryText e) =>
      (0 <? ttl e) && (clock st - timestamp e <? ttl e)
  | _ => false
  end.

(** The entry the durable tier holds for [key], if any. *)
Definition durable_entry (key : string) (st : State) : option CacheEntry :=
  match localStorage st !! (STORAGE_PREFIX +:+ key) with
  | Some text => JSON_parse text
  | None => None
  end.

(** The fast tier holds an unexpired entry for [key]. *)
Definition memory_fresh (key : string) (st : State) : bool :=
  (isValid (memoryCache st !! key) st).1.

(** No read of [key] can be served from either tier, now or later: what
    the tiers hold for it, if anything, has [null] data or is not an
    entry. *)
Definition unservable (key : string) (st : State) : Prop :=
  (forall e, memoryCache st !! key = Some e -> data e = VNull)
  /\ (forall e, localStorage st !! (STORAGE_PREFIX +:+ key) = Some (EntryText e)
             -> data e = VNull).

(** The state reached by [set("/v1/genata", "old", CACHE_TTL.DEFAULT)] on a
    fresh cache. *)
Definition primed : State :=
  (set "/v1/genata" (VStr "old") DEFAULT true initial).2.

(** The storage found after a reload of the page, one second into the new
    session: the fast tier is empty, the durable tier holds the entry a
    former session wrote with [CACHE_TTL.REFERENTIALS]. *)
Definition reloaded : State :=
  {| memoryCache := ∅; inFlightRequests := ∅;
     localStorage :=
       {[ STORAGE_PREFIX +:+ "/v1/genata" :=
            EntryText (mkEntry (VStr "ATA") 0 REFERENTIALS) ]};
     clock := 1000; operations := []; log := [] |}.

(** [getCacheStats()] *)
Definition getCacheStats (st : State) : nat * nat :=
  (size (memoryCache st), size (inFlightRequests st)).

(** ** Cache keys *)

(** A parameter value: [string | number | boolean]; numbers are the integer
    identifiers the query builders pass. *)
Inductive ParamValue :=
| PString (s : string)
| PNumber (n : Z)
| PBoolean (b : bool).

(** What a template literal makes of a parameter value. *)
Definition render (v : ParamValue) : string :=
  match v with
  | PString s => s
  | PNumber n => pretty n
  | PBoolean b => if b then "true" else "false"
  end.

(** A parameter object, as the list of its properties in insertion order
    (an object holds each key once). *)
Definition ParamObject : Type := list (string * ParamValue).

(** [Object.keys(params)], up to order, and [params[k]] *)
Definition Object_keys (params : ParamObject) : list string := params.*1.

Definition property (params : ParamObject) (k : string) : option ParamValue :=
  (list_to_map params : gmap string ParamValue) !! k.

(** The order of [Array.prototype.sort()] without a comparator: strings by
    their code units. *)
Definition code_unit_le (a b : string) : Prop := String.leb a b = true.

Global Instance code_unit_le_dec a b : Decision (code_unit_le a b).
Proof. unfold code_unit_le. apply _. Defined.

(** [makeCacheKey(endpoint, params)] *)
Definition makeCacheKey (endpoint : string) (params : option ParamObject)
  : string :=
  match params with
  | None => endpoint
  | Some ps =>
      if (length (Object_keys ps) =? 0)%nat then endpoint
      else
        let sortedParams :=
          String.concat "&"
            (List.map
               (fun k =>
                  k +:+ "=" +:+
                  match property ps k with
                  | Some v => render v
                  | None => "undefined"
                  end)
               (merge_sort code_unit_le (Object_keys ps))) in
        endpoint +:+ "?" +:+ sortedParams
  end.

(** ** Prefix invalidation *)

(** [memoryCache.keys()] *)
Definition memory_keys (m : gmap string CacheEntry) : list string :=
  (map_to_list m).*1.

(** The loop over [memoryCache.keys()] in [invalidatePrefix]. *)
Fixpoint memory_deleteMatching (prefix : string) (keys : list string)
  : M unit :=
  match keys with
  | [] => ret tt
  | key :: rest =>
      (if String.prefix prefix key then memory_delete key else ret tt) ;;;
      memory_deleteMatching prefix rest
  end.

(** [invalidatePrefix(prefix)] *)
Definition invalidatePrefix (prefix : string) : M unit :=
  (fun st => memory_deleteMatching prefix (memory_keys (memoryCache st)) st) ;;;
  fun st =>
    let keysToRemove :=
      List.filter
        (fun key => negb (String.eqb key "")
                    && String.prefix (STORAGE_PREFIX +:+ prefix) key)
        (storage_keys (localStorage st)) in
    removeAll keysToRemove st.

(** ** The page as a whole *)

(** What callers and the environment can do to the module. *)
Inductive Event :=
| EvFetch (key : string) (t : Z) (persistToStorage : bool)
| EvSettle (p : nat) (o : Outcome)
| EvAdvance (d : Z)
| EvGet (key : string)
| EvSet (key : string) (d : Value) (t : Z) (persistToStorage : bool)
| EvInvalidate (key : string)
| EvInvalidatePrefix (prefix : string)
| EvClearAll.

Definition step (e : Event) (st : State) : State :=
  match e with
  | EvFetch key t persistToStorage =>
      (deduplicatedFetch key t persistToStorage st).2
  | EvSettle p o => (settle p o st).2
  | EvAdvance d => (advance d st).2
  | EvGet key => (get key st).2
  | EvSet key d t persistToStorage => (set key d t persistToStorage st).2
  | EvInvalidate key => (invalidate key st).2
  | EvInvalidatePrefix prefix => (invalidatePrefix prefix st).2
  | EvClearAll => (clearAll st).2
  end.

Definition run_events (evs : list Event) (st : State) : State :=
  foldl (fun s e => step e s) st evs.

(** A reload of the page: the module is loaded afresh, the storage and the
    clock carry on. *)
Definition reload (st : State) : State :=
  {| memoryCache := ∅; inFlightRequests := ∅;
     localStorage := localStorage st; clock := clock st;
     operations := []; log := [] |}.

End Cache.

(* ===================================================================== *)
(** * amsClient.ts *)
(* ===================================================================== *)

Module Client.

(** [AmsApiError['type']] *)
Inductive ErrorType := network | timeout | http | parse | unknown.

Definition Params : Type := list (string * string).

(** [interface AmsApiError]; optional fields are [option]s. *)
Record AmsApiError := mkError {
  type : ErrorType;
  status : option Z;
  statusText : option string;
  message : string;
  endpoint : string;
  params : option Params;
}.

(** [type AmsResult<T>] *)
Inductive AmsResult :=
| Ok (data : Value)
| Err (error : AmsApiError).

(** The closures that can sit in [config.onUnauthorized]: the one of
    [defaultConfig] ([clearToken(); window.location.reload()]) or one given
    to [configureClient].  What a callback does to the session is outside
    this module; a request only records that it was invoked. *)
Inductive Callback :=
| DefaultLogout
| Handler (id : nat).

(** [interface AmsClientConfig]; [timeout_ms] is its field [timeout]. *)
Record AmsClientConfig := mkConfig {
  baseUrl : string;
  timeout_ms : Z;
  maxRetries : Z;
  retryDelay : Z;
  onUnauthorized : option Callback;
}.

Definition defaultConfig : AmsClientConfig :=
  {| baseUrl := "/api"; timeout_ms := 30000; maxRetries := 2;
     retryDelay := 1000; onUnauthorized := Some DefaultLogout |}.

(** [Partial<AmsClientConfig>]: a field is [None] when the object literal
    does not mention it; [onUnauthorized] may be mentioned with the value
    [undefined]. *)
Record PartialConfig := mkPartial {
  new_baseUrl : option string;
  new_timeout : option Z;
  new_maxRetries : option Z;
  new_retryDelay : option Z;
  new_onUnauthorized : option (option Callback);
}.

(** [configureClient(newConfig)]: [config = { ...config, ...newConfig }] *)
Definition configureClient (config : AmsClientConfig) (n : PartialConfig)
  : AmsClientConfig :=
  {| baseUrl := default (baseUrl config) (new_baseUrl n);
     timeout_ms := default (timeout_ms config) (new_timeout n);
     maxRetries := default (maxRetries config) (new_maxRetries n);
     retryDelay := default (retryDelay config) (new_retryDelay n);
     onUnauthorized := default (onUnauthorized config) (new_onUnauthorized n) |}.

Inductive Method := GET | POST | PUT | DELETE.

(** What the code reads of a [Response].  [text] and [json] are [None]
    when reading the body fails, with [body_error] the message of the error
    raised; [text_json] is what [JSON.parse] makes of the text, [None] when
    it throws. *)
Record Response := mkResponse {
  r_status : Z;
  r_statusText : string;
  content_type : option string;
  text : option string;
  json : option Value;
  text_json : option Value;
  body_error : string;
}.

(** [response.ok] *)
Definition r_ok (r : Response) : bool :=
  (200 <=? r_status r) && (r_status r <=? 299).

(** What the [catch (error)] clause inspects of a thrown value. *)
Record Thrown := mkThrown {
  instanceof_Error : bool;
  instanceof_TypeError : bool;
  name : string;
  error_message : string;
}.

(** One [await fetch(url, ...)]: a response, or an exception (the abort
    triggered by the timeout timer, a connectivity failure, ...). *)
Inductive FetchOutcome :=
| Responds (r : Response)
| Throws (e : Thrown).

(** Effects of a request, in order. *)
Inductive Effect :=
| Fetched (m : Method) (url : string) (attempt : nat)
| Slept (ms : Z)
| Invoked (cb : Callback).

(** [String.prototype.includes] *)
Fixpoint includes (sub s : string) : bool :=
  String.prefix sub s ||
  match s with
  | EmptyString => false
  | String _ rest => includes sub rest
  end.

(** [createError(type, message, endpoint, params, status, statusText)] *)
Definition createError (ty : ErrorType) (msg : string) (ep : string)
    (ps : option Params) (st : option Z) (stText : option string)
  : AmsApiError :=
  {| type := ty; message := msg; endpoint := ep; params := ps;
     status := st; statusText := stText |}.

(** [parseResponse(response, endpoint)] *)
Definition parseResponse (response : Response) (ep : string) : AmsResult :=
  let contentType := default "" (content_type response) in
  let failed :=
    Err {| type := parse;
           message := "Failed to parse response: " +:+ body_error response;
           endpoint := ep; params := None; status := None;
           statusText := None |} in
  if includes "application/json" contentType then
    match json response with
    | Some d => Ok d
    | None => failed
    end
  else
    match text response with
    | Some txt =>
        match text_json response with
        | Some d => Ok d
        | None => Ok (VStr txt)
        end
    | None => failed
    end.

(** [config.onUnauthorized?.()] *)
Definition call_onUnauthorized (config : AmsClientConfig) : list Effect :=
  match onUnauthorized config with
  | Some cb => [Invoked cb]
  | None => []
  end.

Section Request.

(** The configuration in force during the call and the network: what the
    [fetch] of each attempt does. *)
Variable config : AmsClientConfig.
Variable net : nat -> FetchOutcome.

(** [fetchWithRetry(method, endpoint, params, body, attempt)].  The
    recursion is on [fuel]; [fetchWithRetry] below supplies enough of
    it.  The result comes with the effects performed, in order.  [body]
    and the headers only shape the request sent and are left out. *)
Fixpoint fetchWithRetry_fuel (fuel : nat) (method : Method) (ep : string)
    (ps : option Params) (attempt : nat)
  : option (AmsResult * list Effect) :=
  match fuel with
  | O => None
  | S fuel' =>
    let url := baseUrl config +:+ ep in
    let retry (ms : Z) :=
      match fetchWithRetry_fuel fuel' method ep ps (S attempt) with
      | Some (res, effs) =>
          Some (res, Fetched method url attempt :: Slept ms :: effs)
      | None => None
      end in
    match net attempt with
    | Responds response =>
        if r_status response =? 401 then
          Some (Err (createError http "Unauthorized - session expired" ep
                       ps (Some 401) (Some "Unauthorized")),
                Fetched method url attempt :: call_onUnauthorized config)
        else if negb (r_ok response) then
          let errorText :=
            default (r_statusText response) (text response) in
          if (500 <=? r_status response)
             && (Z.of_nat attempt <? maxRetries config)
          then retry (retryDelay config * (Z.of_nat attempt + 1))
          else
            Some (Err (createError http
                         ("HTTP " +:+ pretty (r_status response) +:+ ": "
                          +:+ errorText)
                         ep ps (Some (r_status response))
                         (Some (r_statusText response))),
                  [Fetched method url attempt])
        else Some (parseResponse response ep, [Fetched method url attempt])
    | Throws error =>
        if instanceof_Error error && String.eqb (name error) "AbortError"
        then
          if Z.of_nat attempt <? maxRetries config
          then retry (retryDelay config)
          else
            Some (Err (createError timeout
                         ("Request timed out after "
                          +:+ pretty (timeout_ms config) +:+ "ms")
                         ep ps None None),
                  [Fetched method url attempt])
        else if instanceof_TypeError error
                && includes "fetch" (error_message error)
        then
          if Z.of_nat attempt <? maxRetries config
          then retry (retryDelay config * (Z.of_nat attempt + 1))
          else
            Some (Err (createError network
                         "Network error - check your connection"
                         ep ps None None),
                  [Fetched method url attempt])
        else
          Some (Err (createError unknown
                       (if instanceof_Error error then error_message error
                        else "Unknown error occurred")
                       ep ps None None),
                [Fetched method url attempt])
    end
  end.

(** Attempts still possible from [attempt] on, this one included. *)
Definition attempts_left (attempt : nat) : nat :=
  S (Z.to_nat (maxRetries config - Z.of_nat attempt)).

Definition fetchWithRetry (method : Method) (ep : string)
    (ps : option Params) (attempt : nat)
  : option (AmsResult * list Effect) :=
  fetchWithRetry_fuel (attempts_left attempt) method ep ps attempt.

End Request.

(** Number of [fetch] calls and of callback invocations among effects. *)
Definition fetch_count (effs : list Effect) : nat :=
  length (List.filter (fun e => match e with Fetched _ _ _ => true | _ => false end) effs).

Definition invoked_count (effs : list Effect) : nat :=
  length (List.filter (fun e => match e with Invoked _ => true | _ => false end) effs).

Definition sleeps (effs : list Effect) : list Z :=
  omap (fun e => match e with Slept ms => Some ms | _ => None end) effs.

(** A server that is down: every attempt is answered with a 500. *)
Definition always_500 (attempt : nat) : FetchOutcome :=
  Responds {| r_status := 500; r_statusText := "Internal Server Error";
              content_type := None; text := Some "down"; json := None;
              text_json := None; body_error := "" |}.

(** A server that rejects the session token. *)
Definition always_401 (attempt : nat) : FetchOutcome :=
  Responds {| r_status := 401; r_statusText := "Unauthorized";
              content_type := None; text := Some ""; json := None;
              text_json := None; body_error := "" |}.

End Client.

(* ===================================================================== *)
(** * amsBootstrap.ts *)
(* ===================================================================== *)

Module Bootstrap.

(** [interface GenericRef] *)
Record GenericRef := mkRef {
  ID : Z;
  CODE : string;
  LABEL : string;
}.

(** The eleven named slots of [interface ReferentialStore], also used for
    the eleven fetches of one fan-out. *)
Record Refs (A : Type) := mkRefs {
  acTypes : A;
  acFleet : A;
  settings : A;
  atas : A;
  taskTypes : A;
  craTypes : A;
  delays : A;
  movUrgs : A;
  specialities : A;
  pnTypes : A;
  movTypes : A;
}.

Arguments mkRefs {A}.
Arguments acTypes {A}.
Arguments acFleet {A}.
Arguments settings {A}.
Arguments atas {A}.
Arguments taskTypes {A}.
Arguments craTypes {A}.
Arguments delays {A}.
Arguments movUrgs {A}.
Arguments specialities {A}.
Arguments pnTypes {A}.
Arguments movTypes {A}.

Definition ReferentialStore : Type := Refs (list GenericRef).

Definition emptyStore : ReferentialStore :=
  mkRefs [] [] [] [] [] [] [] [] [] [] [].

(** A settled promise. *)
Inductive Settled (A : Type) :=
| Fulfilled (a : A)
| Rejected (reason : string).

Arguments Fulfilled {A}.
Arguments Rejected {A}.

(** [p.catch(() => [])] *)
Definition catch_empty (p : Settled (list GenericRef))
  : Settled (list GenericRef) :=
  match p with
  | Fulfilled l => Fulfilled l
  | Rejected _ => Fulfilled []
  end.

Definition refs_map {A B} (f : A -> B) (r : Refs A) : Refs B :=
  mkRefs (f (acTypes r)) (f (acFleet r)) (f (settings r)) (f (atas r))
         (f (taskTypes r)) (f (craTypes r)) (f (delays r)) (f (movUrgs r))
         (f (specialities r)) (f (pnTypes r)) (f (movTypes r)).

Definition and_then {A B} (p : Settled A) (k : A -> Settled B) : Settled B :=
  match p with
  | Fulfilled a => k a
  | Rejected reason => Rejected reason
  end.

(** [Promise.all([...])] once every element has settled: the array of the
    values, or a rejection if some element rejected. *)
Definition Promise_all {A} (ps : Refs (Settled A)) : Settled (Refs A) :=
  and_then (acTypes ps) (fun a1 =>
  and_then (acFleet ps) (fun a2 =>
  and_then (settings ps) (fun a3 =>
  and_then (atas ps) (fun a4 =>
  and_then (taskTypes ps) (fun a5 =>
  and_then (craTypes ps) (fun a6 =>
  and_then (delays ps) (fun a7 =>
  and_then (movUrgs ps) (fun a8 =>
  and_then (specialities ps) (fun a9 =>
  and_then (pnTypes ps) (fun a10 =>
  and_then (movTypes ps) (fun a11 =>
  Fulfilled (mkRefs a1 a2 a3 a4 a5 a6 a7 a8 a9 a10 a11)))))))))))).

(** The promise of one run of the [async] arrow function in
    [bootstrapReferentials]. *)
Inductive Status :=
| Running
| Resolved
| Failed (reason : string).

Record State := mkState {
  referentialStore : ReferentialStore;   (* let referentialStore *)
  isBootstrapped : bool;                 (* let isBootstrapped *)
  bootstrapPromise : option nat;         (* let bootstrapPromise *)
  attempts : list Status;                (* fan-outs started so far *)
}.

Definition initial : State :=
  {| referentialStore := emptyStore; isBootstrapped := false;
     bootstrapPromise := None; attempts := [] |}.

(** What a caller of an [async] function holds: a promise that is already
    resolved, or one that follows the attempt [p]. *)
Inductive Handle :=
| Completed
| Joined (p : nat).

(** [bootstrapReferentials()], up to its [return]: the arrow function runs
    to its [await], having started the eleven fetches. *)
Definition bootstrapReferentials (st : State) : Handle * State :=
  match bootstrapPromise st with
  | Some p => (Joined p, st)
  | None =>
      if isBootstrapped st then (Completed, st)
      else
        let p := length (attempts st) in
        (Joined p,
         {| referentialStore := referentialStore st;
            isBootstrapped := isBootstrapped st;
            bootstrapPromise := Some p;
            attempts := attempts st ++ [Running] |})
  end.

(** The rest of the arrow function, run when the eleven fetches of attempt
    [p] have settled as [fetched]: the [try] block after its [await], the
    [catch] handler, the [finally] block. *)
Definition fanIn (p : nat) (fetched : Refs (Settled (list GenericRef)))
    (st : State) : State :=
  match attempts st !! p with
  | Some Running =>
      let tried :=
        match Promise_all (refs_map catch_empty fetched) with
        | Fulfilled lists => (lists, true)
        | Rejected _ => (referentialStore st, isBootstrapped st)
        end in
      {| referentialStore := tried.1;
         isBootstrapped := tried.2;
         bootstrapPromise := None;
         attempts := <[p := Resolved]> (attempts st) |}
  | _ => st
  end.

(** [isReferentialsLoaded()] *)
Definition isReferentialsLoaded (st : State) : bool := isBootstrapped st.

(** [waitForBootstrap()] *)
Definition waitForBootstrap (st : State) : Handle :=
  if isBootstrapped st then Completed
  else
    match bootstrapPromise st with
    | Some p => Joined p
    | None => Completed
    end.

(** The synchronous accessors. *)
Definition getAcTypes (st : State) := acTypes (referentialStore st).
Definition getAcFleet (st : State) := acFleet (referentialStore st).
Definition getSettings (st : State) := settings (referentialStore st).
Definition getAtas (st : State) := atas (referentialStore st).
Definition getTaskTypes (st : State) := taskTypes (referentialStore st).
Definition getCraTypes (st : State) := craTypes (referentialStore st).
Definition getDelays (st : State) := delays (referentialStore st).
Definition getMovUrgs (st : State) := movUrgs (referentialStore st).
Definition getSpecialities (st : State) := specialities (referentialStore st).
Definition getPnTypes (st : State) := pnTypes (referentialStore st).
Definition getMovTypes (st : State) := movTypes (referentialStore st).

(** All eleven accessors at once. *)
Definition accessors (st : State) : Refs (list GenericRef) :=
  mkRefs (getAcTypes st) (getAcFleet st) (getSettings st) (getAtas st)
         (getTaskTypes st) (getCraTypes st) (getDelays st) (getMovUrgs st)
         (getSpecialities st) (getPnTypes st) (getMovTypes st).

(** [resetBootstrap()] *)
Definition resetBootstrap (st : State) : State :=
  {| referentialStore := emptyStore;
     isBootstrapped := false;
     bootstrapPromise := None;
     attempts := attempts st |}.

(** What the holder of a handle observes. *)
Definition status_of (h : Handle) (st : State) : Status :=
  match h with
  | Completed => Resolved
  | Joined p => default Running (attempts st !! p)
  end.

(** What the accessor of a list shows after a fan-in in which its fetch
    settled as [s]. *)
Definition shown (s : Settled (list GenericRef)) : list GenericRef :=
  match s with
  | Fulfilled l => l
  | Rejected _ => []
  end.

(** Two lists as a server would return them. *)
Definition some_types : list GenericRef :=
  [ {| ID := 1; CODE := "A320"; LABEL := "Airbus A320" |} ].

Definition some_atas : list GenericRef :=
  [ {| ID := 21; CODE := "21"; LABEL := "Air conditioning" |};
    {| ID := 32; CODE := "32"; LABEL := "Landing gear" |} ].

(** A fan-out in which the fleet fetch fails, two fetches bring data and
    the others bring empty lists. *)
Definition one_failure : Refs (Settled (list GenericRef)) :=
  {| acTypes := Fulfilled some_types; acFleet := Rejected "HTTP 500: down";
     settings := Fulfilled []; atas := Fulfilled some_atas;
     taskTypes := Fulfilled []; craTypes := Fulfilled [];
     delays := Fulfilled []; movUrgs := Fulfilled [];
     specialities := Fulfilled []; pnTypes := Fulfilled [];
     movTypes := Fulfilled [] |}.

(** ** Lookup helpers *)

(** [findRefById(refs, id)] *)
Definition findRefById (refs : list GenericRef) (id : Z) : option GenericRef :=
  List.find (fun r => ID r =? id) refs.

(** [findRefByCode(refs, code)] *)
Definition findRefByCode (refs : list GenericRef) (code : string)
  : option GenericRef :=
  List.find (fun r => String.eqb (CODE r) code) refs.

(** [getRefLabel(refs, id, fallback)]: [ref?.LABEL || fallback] *)
Definition getRefLabel (refs : list GenericRef) (id : Z) (fallback : string)
  : string :=
  match findRefById refs id with
  | Some ref => if String.eqb (LABEL ref) "" then fallback else LABEL ref
  | None => fallback
  end.

(** [getAtaLabel(ataId)] *)
Definition getAtaLabel (ataId : Z) (st : State) : string :=
  getRefLabel (atas (referentialStore st)) ataId ("ATA-" +:+ pretty ataId).

(** [getTaskTypeLabel(taskTypeId)] *)
Definition getTaskTypeLabel (taskTypeId : Z) (st : State) : string :=
  getRefLabel (taskTypes (referentialStore st)) taskTypeId
              ("Type-" +:+ pretty taskTypeId).

(** ** The module over whole runs *)

Inductive Event :=
| EvBootstrap
| EvFanIn (p : nat) (fetched : Refs (Settled (list GenericRef)))
| EvReset.

Definition step (e : Event) (st : State) : State :=
  match e with
  | EvBootstrap => (bootstrapReferentials st).2
  | EvFanIn p fetched => fanIn p fetched st
  | EvReset => resetBootstrap st
  end.

Definition run_events (evs : list Event) (st : State) : State :=
  foldl (fun s e => step e s) st evs.

End Bootstrap.

(* ===================================================================== *)
(** * amsEndpoints.ts: aggregation helper *)
(* ===================================================================== *)

Module Endpoints.

Section Aggregation.

(** JavaScript numbers and their [+]. *)
Variable number : Type.
Variable plus : number -> number -> number.
Infix "+" := plus.

(** [interface WpDetail] *)
Record WpDetail := mkWpDetail {
  WP_ID : number;
  AC_MSN : number;
  WO_Total : number;
  WO_Total_Routine : number;
  WO_Total_RectWorks_Excl : number;
  WO_Total_AddWOrks : number;
  WO_Total_RectWorks_Incl : number;
  WO_Total_Storage : number;
  WO_Total_Routine_Closed : number;
  WO_Total_RectWorks_Excl_Closed : number;
  WO_Total_AddWorks_Closed : number;
  WO_Total_RectWorks_Incl_Closed : number;
  WO_Total_Storage_Closed : number;
  WO_Total_MH_Opened : number;
  WO_Total_Routine_MH_Opened : number;
  WO_Total_RectWorks_Excl_MH_Opened : number;
  WO_Total_AddWorks_MH_Opened : number;
  WO_Total_RectWorks_Incl_MH_Opened : number;
  WO_Total_Storage_MH_Opened : number;
  WO_Total_MH_Closed : number;
  WO_Total_Routine_MH_Closed : number;
  WO_Total_RectWorks_Excl_MH_Closed : number;
  WO_Total_AddWorks_MH_Closed : number;
  WO_Total_RectWorks_Incl_MH_Closed : number;
  WO_Total_Storage_MH_Closed : number;
  PARTS_IN_RFQ : number;
  PARTS_TO_BE_QUOTED : number;
  PARTS_TO_BE_ORDERED : number;
  PARTS_TO_BE_ORDERED_POIN : number;
  PARTS_ETA_PAST : number;
  PARTS_ETA_ON_TIME : number;
  PARTS_NO_ETA : number;
  BUYER_CQ_TO_APPROVE : number;
  TECHOFFICE_CQ_TO_APPROVE : number;
  TOOLS_NOT_RETURNED : number;
  PARTS_TO_BE_ISSUED : number;
  PARTS_TO_BE_ISSUED_POIN : number;
  PARTS_UNDER_CLAIM : number;
  CQ_TO_BE_SENT : number;
  CQ_PENDING_CUST_APPROVAL : number;
  PARTS_REQ_ETA_PAST : number;
  PARTS_REQ_ETA_ON_TIME : number;
  PARTS_REQ_NO_ETA : number;
}.

(** [interface DashboardCounts] *)
Record DashboardCounts := mkCounts {
  totalWO : number;
  closedWO : number;
  openMH : number;
  closedMH : number;
  partsInRfq : number;
  partsToBeOrdered : number;
  partsToBeIssued : number;
  partsEtaPast : number;
  cqToApprove : number;
  toolsNotReturned : number;
}.

(** [computeDashboardCounts(wpDetail)] *)
Definition computeDashboardCounts (wpDetail : WpDetail) : DashboardCounts :=
  let closed :=
    WO_Total_Routine_Closed wpDetail +
    WO_Total_RectWorks_Excl_Closed wpDetail +
    WO_Total_AddWorks_Closed wpDetail +
    WO_Total_RectWorks_Incl_Closed wpDetail +
    WO_Total_Storage_Closed wpDetail in
  {| totalWO := WO_Total wpDetail;
     closedWO := closed;
     openMH := WO_Total_MH_Opened wpDetail;
     closedMH := WO_Total_MH_Closed wpDetail;
     partsInRfq := PARTS_IN_RFQ wpDetail;
     partsToBeOrdered :=
       PARTS_TO_BE_ORDERED wpDetail + PARTS_TO_BE_ORDERED_POIN wpDetail;
     partsToBeIssued :=
       PARTS_TO_BE_ISSUED wpDetail + PARTS_TO_BE_ISSUED_POIN wpDetail;
     partsEtaPast := PARTS_ETA_PAST wpDetail + PARTS_REQ_ETA_PAST wpDetail;
     cqToApprove :=
       BUYER_CQ_TO_APPROVE wpDetail + TECHOFFICE_CQ_TO_APPROVE wpDetail;
     toolsNotReturned := TOOLS_NOT_RETURNED wpDetail |}.

End Aggregation.

Arguments computeDashboardCounts {number}.

(** ** Endpoints, query builders and typed fetch functions *)

(** [ENDPOINTS], the paths used below *)
Definition AC_LIST : string := "/v1/ac/list".
Definition WP_LIST : string := "/v1/wplist".
Definition WP_DETAIL : string := "/v1/wpdetaillist".
Definition WO_LIST : string := "/v1/eche".

(** [String(n)] for an integer identifier *)
Definition String_of_number (n : Z) : string := pretty n.

Module queryBuilders.

Definition aircraftByReg (acRegistr : string) : Cache.ParamObject :=
  [("acregistr", Cache.PString acRegistr)].

Definition wpListByAircraft (acId : Z) : Cache.ParamObject :=
  [("echeacid", Cache.PString (String_of_number acId))].

Definition wpDetail (acId wpId : Z) : Cache.ParamObject :=
  [("acid", Cache.PString (String_of_number acId));
   ("echeworkpackid", Cache.PString (String_of_number wpId))].

Definition woListByWorkpack (wpId : Z) : Cache.ParamObject :=
  [("echeworkpackid", Cache.PString (String_of_number wpId))].

End queryBuilders.

(** The [fetcher] every typed fetch function hands to [deduplicatedFetch]:
    [if (!result.ok) throw new Error(result.error.message); return
    result.data], applied to what [amsClient.get] returned. *)
Definition fetcher_outcome (result : Client.AmsResult) : Cache.Outcome :=
  match result with
  | Client.Ok d => Cache.Resolves d
  | Client.Err e => Cache.Rejects (Client.message e)
  end.

(** [params] as it is copied into an error. *)
Definition error_params (params : Cache.ParamObject) : Client.Params :=
  List.map (fun kv => (kv.1, Cache.render kv.2)) params.

(** The [try]/[catch] of a typed fetch function around its [await]: what it
    returns once the promise it awaits shows [s]; nothing while pending. *)
Definition typed_result (endpoint : string) (params : Cache.ParamObject)
    (s : Cache.PromiseState) : option Client.AmsResult :=
  match s with
  | Cache.Pending => None
  | Cache.Fulfilled d => Some (Client.Ok d)
  | Cache.Rejected msg =>
      Some (Client.Err
              {| Client.type := Client.unknown; Client.message := msg;
                 Client.endpoint := endpoint;
                 Client.params := Some (error_params params);
                 Client.status := None; Client.statusText := None |})
  end.

(** The [deduplicatedFetch] call of [fetchWpDetail(acId, wpId)], of
    [fetchWoListByWorkpack(wpId)] and of [fetchReferential(endpoint)]. *)
Definition fetchWpDetail (acId wpId : Z) : Cache.M Cache.Answer :=
  Cache.deduplicatedFetch
    (Cache.makeCacheKey WP_DETAIL (Some (queryBuilders.wpDetail acId wpId)))
    Cache.SHORT true.

Definition fetchWoListByWorkpack (wpId : Z) : Cache.M Cache.Answer :=
  Cache.deduplicatedFetch
    (Cache.makeCacheKey WO_LIST (Some (queryBuilders.woListByWorkpack wpId)))
    Cache.DEFAULT true.

Definition fetchReferential (endpoint : string) : Cache.M Cache.Answer :=
  Cache.deduplicatedFetch (Cache.makeCacheKey endpoint None)
    Cache.REFERENTIALS true.

End Endpoints.

(* ===================================================================== *)
(** * utils/api.ts: session token and settings in the same storage *)
(* ===================================================================== *)

Module Api.
Import Cache.

Definition TOKEN_KEY : string := "erpToken".
Definition SETTINGS_KEY : string := "erpApiSettings".

(** [saveToken(token)] *)
Definition saveToken (token : string) : M unit :=
  setItem TOKEN_KEY (PlainText token).

(** [getStoredToken()] *)
Definition getStoredToken : M (option StoredText) := getItem TOKEN_KEY.

(** [clearToken()] *)
Definition clearToken : M unit := removeItem TOKEN_KEY.

(** [saveApiSettings(settings)], with the text of the settings object. *)
Definition saveApiSettings (settings_text : string) : M unit :=
  setItem SETTINGS_KEY (PlainText settings_text).

End Api.

(* ===================================================================== *)
(** * amsInit.ts *)
(* ===================================================================== *)

Module Init.

(** [invalidateWpCache(wpId)] *)
Definition invalidateWpCache (wpId : Z) : Cache.M unit :=
  Cache.bind (Cache.invalidatePrefix "/v1/wpdetaillist?") (fun _ =>
  Cache.invalidatePrefix ("/v1/eche?echeworkpackid=" +:+ pretty wpId)).

(** ** [loadWpDashboard] *)

(** [interface Aircraft], its declared fields *)
Record Aircraft := mkAircraft {
  ACID : Z;
  AC_REG : string;
  AC_MSN : string;
  AC_TYPE : string;
  CUSTOMER_ID : Z;
}.

(** [AmsResult<T[]>], as the typed fetch functions return it *)
Inductive Result (A : Type) :=
| ok_true (data : list A)
| ok_false (error : Client.AmsApiError).

Arguments ok_true {A}.
Arguments ok_false {A}.

(** The requests of one load, and the three that depend on a location. *)
Inductive Call :=
| CallByReg (acReg : string)
| CallDetail (acId wpId : Z)
| CallWoList (wpId : Z)
| CallRfq (acId : Z)
| CallReq (locFromRefId wpId : Z)
| CallPoin (locToRefId : Z) (acReg : string) (wpId : Z)
| CallCq (locToRefId : Z) (acReg : string) (wpId : Z).

Inductive Loc := LocReq | LocPoin | LocCq.

Global Instance Loc_eq_dec : EqDecision Loc.
Proof. solve_decision. Defined.

(** A JavaScript [string | undefined] and [number | undefined] used as a
    condition. *)
Definition truthy_string (s : option string) : bool :=
  match s with
  | Some s => negb (String.eqb s "")
  | None => false
  end.

Definition truthy_number (n : option Z) : bool :=
  match n with
  | Some n => negb (n =? 0)
  | None => false
  end.

Section Dashboard.

(** The work packages, work orders, movement items and quotes are only
    passed through. *)
Variables WorkPackage WorkOrder MovItem CustomerQuote : Type.

(** [amsApi], as far as [loadWpDashboard] uses it: what each typed fetch
    function answers. *)
Record AmsApi := mkApi {
  byReg : string -> Result Aircraft;
  detail : Z -> Z -> Result (Endpoints.WpDetail Z);
  listByWorkpack : Z -> Result WorkOrder;
  rfqList : Z -> Result MovItem;
  reqList : Z -> Z -> Result MovItem;
  poinList : Z -> string -> Z -> Result MovItem;
  customerQuotes : Z -> string -> Z -> Result CustomerQuote;
}.

(** The argument of [loadWpDashboard] *)
Record LoadParams := mkLoad {
  acReg : option string;
  acId : option Z;
  wpId : Z;
  locFromRefId : option Z;
  locToRefId : option Z;
}.

(** [interface WpDashboardData] *)
Record WpDashboardData := mkDashboard {
  aircraft : option Aircraft;
  workPackage : option WorkPackage;
  wpDetail : option (Endpoints.WpDetail Z);
  workOrders : list WorkOrder;
  d_rfqList : list MovItem;
  d_reqList : list MovItem;
  d_poinList : list MovItem;
  d_customerQuotes : list CustomerQuote;
  counts : option (Endpoints.DashboardCounts Z);
  errors : list Client.AmsApiError;
}.

Definition emptyDashboard : WpDashboardData :=
  mkDashboard None None None [] [] [] [] [] None [].

(** [result.errors.push(error)] *)
Definition push_error (e : Client.AmsApiError) (r : WpDashboardData)
  : WpDashboardData :=
  mkDashboard (aircraft r) (workPackage r) (wpDetail r) (workOrders r)
    (d_rfqList r) (d_reqList r) (d_poinList r) (d_customerQuotes r)
    (counts r) (errors r ++ [e]).

(** Step 1: resolve the aircraft when only its registration is given. *)
Definition resolve_aircraft (api : AmsApi) (params : LoadParams)
    (r : WpDashboardData) : WpDashboardData * option Z * list Call :=
  match acReg params with
  | Some reg =>
      if truthy_string (Some reg) && negb (truthy_number (acId params)) then
        match byReg api reg with
        | ok_true (a :: _) =>
            (mkDashboard (Some a) (workPackage r) (wpDetail r) (workOrders r)
               (d_rfqList r) (d_reqList r) (d_poinList r)
               (d_customerQuotes r) (counts r) (errors r),
             Some (ACID a), [CallByReg reg])
        | ok_true [] => (r, acId params, [CallByReg reg])
        | ok_false e => (push_error e r, acId params, [CallByReg reg])
        end
      else (r, acId params, [])
  | None => (r, acId params, [])
  end.

(** Step 2: the three requests made together, processed in source order. *)
Definition process_detail (res : Result (Endpoints.WpDetail Z))
    (r : WpDashboardData) : WpDashboardData :=
  match res with
  | ok_true (w :: _) =>
      mkDashboard (aircraft r) (workPackage r) (Some w) (workOrders r)
        (d_rfqList r) (d_reqList r) (d_poinList r) (d_customerQuotes r)
        (Some (Endpoints.computeDashboardCounts Z.add w)) (errors r)
  | ok_true [] => r
  | ok_false e => push_error e r
  end.

Definition process_workOrders (res : Result WorkOrder) (r : WpDashboardData)
  : WpDashboardData :=
  match res with
  | ok_true l =>
      mkDashboard (aircraft r) (workPackage r) (wpDetail r) l
        (d_rfqList r) (d_reqList r) (d_poinList r) (d_customerQuotes r)
        (counts r) (errors r)
  | ok_false e => push_error e r
  end.

Definition process_rfq (res : Result MovItem) (r : WpDashboardData)
  : WpDashboardData :=
  match res with
  | ok_true l =>
      mkDashboard (aircraft r) (workPackage r) (wpDetail r) (workOrders r)
        l (d_reqList r) (d_poinList r) (d_customerQuotes r)
        (counts r) (errors r)
  | ok_false e => push_error e r
  end.

(** Step 3: the [.then] callbacks of the location-dependent requests. *)
Definition process_req (res : Result MovItem) (r : WpDashboardData)
  : WpDashboardData :=
  match res with
  | ok_true l =>
      mkDashboard (aircraft r) (workPackage r) (wpDetail r) (workOrders r)
        (d_rfqList r) l (d_poinList r) (d_customerQuotes r)
        (counts r) (errors r)
  | ok_false e => push_error e r
  end.

Definition process_poin (res : Result MovItem) (r : WpDashboardData)
  : WpDashboardData :=
  match res with
  | ok_true l =>
      mkDashboard (aircraft r) (workPackage r) (wpDetail r) (workOrders r)
        (d_rfqList r) (d_reqList r) l (d_customerQuotes r)
        (counts r) (errors r)
  | ok_false e => push_error e r
  end.

Definition process_cq (res : Result CustomerQuote) (r : WpDashboardData)
  : WpDashboardData :=
  match res with
  | ok_true l =>
      mkDashboard (aircraft r) (workPackage r) (wpDetail r) (workOrders r)
        (d_rfqList r) (d_reqList r) (d_poinList r) l
        (counts r) (errors r)
  | ok_false e => push_error e r
  end.

(** The location-dependent requests that are started, in source order. *)
Definition started (params : LoadParams) : list Loc :=
  (if truthy_number (locFromRefId params) then [LocReq] else [])
  ++ (if truthy_number (locToRefId params) && truthy_string (acReg params)
      then [LocPoin; LocCq] else []).

Definition loc_call (params : LoadParams) (l : Loc) : Call :=
  match l with
  | LocReq => CallReq (default 0 (locFromRefId params)) (wpId params)
  | LocPoin =>
      CallPoin (default 0 (locToRefId params)) (default "" (acReg params))
               (wpId params)
  | LocCq =>
      CallCq (default 0 (locToRefId params)) (default "" (acReg params))
             (wpId params)
  end.

Definition settle_loc (api : AmsApi) (params : LoadParams) (l : Loc)
    (r : WpDashboardData) : WpDashboardData :=
  match l with
  | LocReq =>
      process_req (reqList api (default 0 (locFromRefId params))
                     (wpId params)) r
  | LocPoin =>
      process_poin (poinList api (default 0 (locToRefId params))
                      (default "" (acReg params)) (wpId params)) r
  | LocCq =>
      process_cq (customerQuotes api (default 0 (locToRefId params))
                    (default "" (acReg params)) (wpId params)) r
  end.

(** [loadWpDashboard(params)].  [order] is the order in which the
    location-dependent requests complete (it lists the three kinds); the
    result comes with the requests made, in the order they were started.
    The typed fetch functions return a result and never reject, so the
    [catch] clause around the body is not reached. *)
Definition loadWpDashboard (api : AmsApi) (order : list Loc)
    (params : LoadParams) : WpDashboardData * list Call :=
  let '(r1, id, calls1) := resolve_aircraft api params emptyDashboard in
  if negb (truthy_number id) then (r1, calls1)
  else
    let acId := default 0 id in
    let r2 :=
      process_rfq (rfqList api acId)
        (process_workOrders (listByWorkpack api (wpId params))
           (process_detail (detail api acId (wpId params)) r1)) in
    let r3 :=
      foldl (fun r l => settle_loc api params l r) r2
            (List.filter (fun l => bool_decide (l ∈ started params)) order) in
    (r3,
     calls1 ++ [CallDetail acId (wpId params); CallWoList (wpId params);
                CallRfq acId]
     ++ List.map (loc_call params) (started params)).

(** The error a request of the load came back with, if any. *)
Definition call_error (api : AmsApi) (c : Call)
  : option Client.AmsApiError :=
  let err {A} (res : Result A) :=
    match res with ok_true _ => None | ok_false e => Some e end in
  match c with
  | CallByReg reg => err (byReg api reg)
  | CallDetail a w => err (detail api a w)
  | CallWoList w => err (listByWorkpack api w)
  | CallRfq a => err (rfqList api a)
  | CallReq l w => err (reqList api l w)
  | CallPoin l reg w => err (poinList api l reg w)
  | CallCq l reg w => err (customerQuotes api l reg w)
  end.

End Dashboard.

End Init.

(* ===================================================================== *)
(** * Properties of the cache store *)
(* ===================================================================== *)

Module CacheProofs.
Import Cache.
Local Open Scope cache_scope.

(** Unfolds the monadic plumbing of a synchronous section. *)
Ltac run :=
  unfold set, get, getFromMemory, getFromStorage, setInMemory, setInStorage,
    isValid, invalidate, getItem, setItem, removeItem, memory_get,
    memory_set, memory_delete, memory_clear, Date_now, with_storage,
    bind, ret in *;
  simpl in *.

(** Splits the conjunctions of the goal without unfolding definitions. *)
Ltac splits := repeat match goal with |- _ /\ _ => split end.

Lemma bind_eq {A B} (m : M A) (k : A -> M B) (st : State) :
  bind m k st = k (m st).1 (m st).2.
Proof. unfold bind. by destruct (m st). Qed.

Lemma removeAll_memory keys : forall st,
  memoryCache (removeAll keys st).2 = memoryCache st.
Proof.
  induction keys as [|k keys IH]; intros st; simpl; [done|].
  unfold bind, removeItem. simpl. by rewrite IH.
Qed.

Lemma removeAll_lookup keys : forall st k,
  localStorage (removeAll keys st).2 !! k =
  if bool_decide (k ∈ keys) then None else localStorage st !! k.
Proof.
  induction keys as [|k' keys IH]; intros st k; cbn [removeAll].
  - by rewrite bool_decide_eq_false_2 by apply not_elem_of_nil.
  - unfold bind, removeItem. rewrite IH. cbn [localStorage with_storage snd].
    destruct (decide (k = k')) as [->|Hne].
    + rewrite (bool_decide_eq_true_2 (k' ∈ k' :: keys)) by apply list_elem_of_here.
      case_bool_decide; [done|]. apply lookup_delete_eq.
    + rewrite lookup_delete_ne by done.
      rewrite (bool_decide_ext (k ∈ k' :: keys) (k ∈ keys)); [done|].
      split; [intros [?|?]%elem_of_cons|intros ?; apply elem_of_cons]; tauto.
Qed.

Lemma elem_of_storage_keys (m : gmap string StoredText) k :
  k ∈ storage_keys m <-> is_Some (m !! k).
Proof.
  unfold storage_keys. rewrite list_elem_of_fmap. split.
  - intros [[k' t] [-> Hin]]. apply elem_of_map_to_list in Hin. eauto.
  - intros [t Ht]. exists (k, t). split; [done|].
    by apply elem_of_map_to_list.
Qed.

Lemma prefix_not_empty k : String.prefix STORAGE_PREFIX k = true -> k <> "".
Proof. by intros H ->. Qed.

(** C9. [clearAll()] removes from the storage exactly the items whose key
    starts with ['ams_cache_'] and leaves every other key as it was; the
    session token key and the session settings key are among the latter. *)
Theorem clearAll_touches_only_namespace (st : State) :
  (forall k,
     localStorage (clearAll st).2 !! k =
     if String.prefix STORAGE_PREFIX k then None else localStorage st !! k)
  /\ localStorage (clearAll st).2 !! Api.TOKEN_KEY
     = localStorage st !! Api.TOKEN_KEY
  /\ localStorage (clearAll st).2 !! Api.SETTINGS_KEY
     = localStorage st !! Api.SETTINGS_KEY.
Proof.
  assert (Hall : forall k,
     localStorage (clearAll st).2 !! k =
     if String.prefix STORAGE_PREFIX k then None else localStorage st !! k).
  { intros k. unfold clearAll, bind, memory_clear. simpl.
    rewrite removeAll_lookup. simpl.
    destruct (String.prefix STORAGE_PREFIX k) eqn:Hp.
    - case_bool_decide as Hin; [done|].
      destruct (localStorage st !! k) as [t|] eqn:Hk; [|done].
      exfalso. apply Hin. apply list_elem_of_In, filter_In. split.
      + apply list_elem_of_In, elem_of_storage_keys. eauto.
      + rewrite Hp, andb_true_r. apply negb_true_iff, String.eqb_neq.
        by apply prefix_not_empty.
    - rewrite bool_decide_eq_false_2; [done|].
      intros Hin%list_elem_of_In%filter_In. destruct Hin as [_ Hb].
      rewrite Hp, andb_false_r in Hb. done. }
  split; [exact Hall|]. split; apply Hall.
Qed.

Lemma getFromStorage_not_fresh key st :
  durable_fresh key st = false -> (getFromStorage key st).1 = VNull.
Proof.
  unfold durable_fresh. run.
  destruct (localStorage st !! (STORAGE_PREFIX +:+ key)) as [[e|s]|]; simpl;
    [|by destruct s|done].
  intros ->. done.
Qed.

Lemma getFromStorage_clock_storage key st st' :
  localStorage st' = localStorage st -> clock st' = clock st ->
  (getFromStorage key st').1 = (getFromStorage key st).1.
Proof.
  intros Hs Hc. run. rewrite Hs.
  destruct (localStorage st !! (STORAGE_PREFIX +:+ key)) as [text|]; [|done].
  simpl. destruct (falsy_text text); [done|].
  destruct (JSON_parse text) as [e|]; [|done]. simpl. rewrite Hc.
  by destruct (_ && _).
Qed.

Lemma get_memory_miss key st :
  (getFromMemory key st).1 = VNull ->
  (get key st).1 = (getFromStorage key (getFromMemory key st).2).1.
Proof.
  intros Hm. unfold get at 1. unfold bind at 1.
  destruct (getFromMemory key st) as [v st1] eqn:E. simpl in Hm. subst v.
  simpl. unfold bind. destruct (getFromStorage key st1) as [w st2]. simpl.
  destruct w; done.
Qed.

(** C7 (as amended). [set(key, v, 0, persist)] leaves the durable tier as
    it was, whatever [persist] is, and the entry it writes is never served:
    the fast tier reports a miss, so [get] right after it returns what the
    durable tier serves for the key, which is absent whenever the durable
    tier holds no unexpired entry for it. *)
Theorem set_ttl0_never_served (st : State) (key : string) (v : Value)
    (persist : bool) :
  let st1 := (set key v 0 persist st).2 in
  localStorage st1 = localStorage st
  /\ (getFromMemory key st1).1 = VNull
  /\ (get key st1).1 = (getFromStorage key st).1
  /\ (durable_fresh key st = false -> (get key st1).1 = VNull).
Proof.
  intros st1.
  assert (Hs : localStorage st1 = localStorage st).
  { subst st1. run. by rewrite andb_false_r. }
  assert (Hc : clock st1 = clock st).
  { subst st1. run. by rewrite andb_false_r. }
  assert (Hm : memoryCache st1 !! key = Some (mkEntry v (clock st) 0)).
  { subst st1. run. rewrite andb_false_r. simpl. apply lookup_insert_eq. }
  assert (Hg : (getFromMemory key st1).1 = VNull).
  { unfold getFromMemory, bind, memory_get. rewrite Hm. done. }
  assert (Hget : (get key st1).1 = (getFromStorage key st).1).
  { rewrite get_memory_miss by done.
    apply getFromStorage_clock_storage;
      unfold getFromMemory, bind, memory_get; rewrite Hm; simpl; done. }
  splits; [done|done|done|].
  intros Hd. rewrite Hget. by apply getFromStorage_not_fresh.
Qed.

Lemma set_ttl0_never_served_witness :
  durable_fresh "/v1/genata" initial = false
  /\ (get "/v1/genata" (set "/v1/genata" (VStr "x") 0 true initial).2).1
     = VNull.
Proof.
  split; [reflexivity|].
  apply (set_ttl0_never_served initial "/v1/genata" (VStr "x") true).
  reflexivity.
Defined.

(** C7 as stated fails: after a persisted write of the same key,
    [set(key, v, 0)] followed by [get(key)] returns the older persisted
    value, not absent. *)
Lemma set_ttl0_then_get_serves_older_value :
  (get "/v1/genata" (set "/v1/genata" (VStr "new") 0 true primed).2).1
  = VStr "old".
Proof. vm_compute. reflexivity. Qed.

(** C2 as stated fails: the entry promoted into the fast tier carries
    [CACHE_TTL.DEFAULT], not the [ttl] of the durable entry. *)
Lemma get_promotes_with_default_ttl :
  memory_fresh "/v1/genata" reloaded = false
  /\ durable_fresh "/v1/genata" reloaded = true
  /\ (get "/v1/genata" reloaded).1 = VStr "ATA"
  /\ ttl <$> memoryCache (get "/v1/genata" reloaded).2 !! "/v1/genata"
     = Some 300000
  /\ ttl <$> durable_entry "/v1/genata" reloaded = Some 86400000.
Proof. vm_compute. repeat split; reflexivity. Qed.

(** C2 (as amended). When the fast tier has no unexpired entry for [key]
    and the durable tier holds an unexpired entry [e] with non-null data,
    [get(key)] returns [e]'s data and writes into the fast tier a copy of
    the data stamped with the current time and [CACHE_TTL.DEFAULT]; the
    durable tier is left as it was. *)
Theorem get_promotes_from_storage (st : State) (key : string)
    (e : CacheEntry) :
  memory_fresh key st = false ->
  localStorage st !! (STORAGE_PREFIX +:+ key) = Some (EntryText e) ->
  0 < ttl e ->
  clock st - timestamp e < ttl e ->
  data e <> VNull ->
  (get key st).1 = data e
  /\ memoryCache (get key st).2 !! key
     = Some {| data := data e; timestamp := clock st; ttl := DEFAULT |}
  /\ localStorage (get key st).2 = localStorage st.
Proof.
  intros Hm Hs Ht Hc Hd. unfold memory_fresh in Hm.
  assert (Hfresh : (0 <? ttl e) && (clock st - timestamp e <? ttl e) = true).
  { apply andb_true_iff. split; apply Z.ltb_lt; lia. }
  assert (Hnn : is_null (data e) = false) by (by destruct (data e)).
  run.
  destruct (memoryCache st !! key) as [m|] eqn:Em; simpl in *.
  - destruct (ttl m =? 0) eqn:E0; simpl in *.
    + rewrite Hs. simpl. rewrite Hfresh. simpl. rewrite Hnn. simpl.
      rewrite lookup_insert_eq. done.
    + rewrite Hm. simpl. rewrite Hs. simpl. rewrite Hfresh. simpl.
      rewrite Hnn. simpl. rewrite lookup_insert_eq. done.
  - rewrite Hs. simpl. rewrite Hfresh. simpl. rewrite Hnn. simpl.
    rewrite lookup_insert_eq. done.
Qed.

Lemma get_promotes_from_storage_witness :
  (get "/v1/genata" reloaded).1 = VStr "ATA"
  /\ memoryCache (get "/v1/genata" reloaded).2 !! "/v1/genata"
     = Some {| data := VStr "ATA"; timestamp := 1000; ttl := DEFAULT |}
  /\ localStorage (get "/v1/genata" reloaded).2 = localStorage reloaded.
Proof.
  apply (get_promotes_from_storage reloaded "/v1/genata"
           (mkEntry (VStr "ATA") 0 REFERENTIALS)).
  - reflexivity.
  - reflexivity.
  - reflexivity.
  - reflexivity.
  - discriminate.
Defined.

(** ** The coalescer *)

Lemma is_null_true v : is_null v = true -> v = VNull.
Proof. by destruct v. Qed.

Lemma get_frame key st :
  inFlightRequests (get key st).2 = inFlightRequests st
  /\ operations (get key st).2 = operations st
  /\ log (get key st).2 = log st
  /\ clock (get key st).2 = clock st.
Proof.
  run. repeat (case_match; simpl in *; simplify_eq); done.
Qed.

Lemma getFromMemory_miss key st :
  (getFromMemory key st).1 = VNull ->
  (forall e, memoryCache (getFromMemory key st).2 !! key = Some e ->
             data e = VNull)
  /\ localStorage (getFromMemory key st).2 = localStorage st.
Proof.
  run. destruct (memoryCache st !! key) as [m|] eqn:Em; simpl.
  - destruct (ttl m =? 0); simpl.
    + intros _. split; [|done]. intros e. by rewrite lookup_delete_eq.
    + destruct (clock st - timestamp m <? ttl m); simpl.
      * intros Hd. split; [|done]. intros e He. congruence.
      * intros _. split; [|done]. intros e. by rewrite lookup_delete_eq.
  - intros _. split; [|done]. intros e He. congruence.
Qed.

Lemma getFromStorage_miss key st :
  (getFromStorage key st).1 = VNull ->
  (forall e, localStorage (getFromStorage key st).2 !! (STORAGE_PREFIX +:+ key)
             = Some (EntryText e) -> data e = VNull)
  /\ memoryCache (getFromStorage key st).2 = memoryCache st.
Proof.
  run.
  destruct (localStorage st !! (STORAGE_PREFIX +:+ key)) as [text|] eqn:Es;
    simpl; [|intros _; split; [intros e He; congruence|done]].
  destruct (falsy_text text) eqn:Ef; simpl.
  { intros _. split; [|done]. intros e He.
    rewrite Es in He. by simplify_eq. }
  destruct text as [e0|s0]; simpl.
  - destruct ((0 <? ttl e0) && (clock st - timestamp e0 <? ttl e0)); simpl.
    + intros Hd. split; [|done]. intros e He. congruence.
    + intros _. split; [|done]. intros e. by rewrite lookup_delete_eq.
  - intros _. split; [|done]. intros e He. congruence.
Qed.

(** A miss leaves the key unservable. *)
Lemma get_miss key st :
  (get key st).1 = VNull -> unservable key (get key st).2.
Proof.
  unfold get, bind.
  destruct (getFromMemory key st) as [v st1] eqn:E1.
  destruct (is_null v) eqn:Hv; simpl.
  2:{ unfold ret. simpl. intros ->. done. }
  apply is_null_true in Hv. subst v.
  pose proof (getFromMemory_miss key st) as Hmem. rewrite E1 in Hmem.
  destruct (Hmem eq_refl) as [Hm1 Hs1]. simpl in *.
  destruct (getFromStorage key st1) as [w st2] eqn:E2.
  destruct (is_null w) eqn:Hw; simpl.
  2:{ unfold setInMemory, bind, Date_now, memory_set, ret. simpl.
      intros ->. done. }
  apply is_null_true in Hw. subst w. intros _. unfold ret. simpl.
  pose proof (getFromStorage_miss key st1) as Hsto. rewrite E2 in Hsto.
  destruct (Hsto eq_refl) as [Hs2 Hm2]. simpl in *.
  split; [|done]. intros e He. rewrite Hm2 in He. eauto.
Qed.

Lemma getFromMemory_unservable key st :
  unservable key st ->
  (getFromMemory key st).1 = VNull /\ unservable key (getFromMemory key st).2.
Proof.
  intros [Hm Hs]. run.
  destruct (memoryCache st !! key) as [m|] eqn:Em; simpl.
  - destruct (ttl m =? 0); simpl.
    + split; [done|]. split; [|done]. simpl. intros e.
      by rewrite lookup_delete_eq.
    + destruct (clock st - timestamp m <? ttl m); simpl.
      * split; [eauto|]. split; simpl; [|done]. intros e He.
        apply Hm. congruence.
      * split; [done|]. split; [|done]. simpl. intros e.
        by rewrite lookup_delete_eq.
  - split; [done|]. split; simpl; [|done]. intros e He. congruence.
Qed.

Lemma getFromStorage_unservable key st :
  unservable key st ->
  (getFromStorage key st).1 = VNull /\ unservable key (getFromStorage key st).2.
Proof.
  intros [Hm Hs]. run.
  destruct (localStorage st !! (STORAGE_PREFIX +:+ key)) as [text|] eqn:Es;
    simpl; [|split; [done|]; split; simpl; [done|intros e He; congruence]].
  destruct (falsy_text text) eqn:Ef; simpl.
  { split; [done|]. split; simpl; [done|]. intros e He. apply Hs. congruence. }
  destruct text as [e0|s0]; simpl.
  - destruct ((0 <? ttl e0) && (clock st - timestamp e0 <? ttl e0)); simpl.
    + split; [eauto|]. split; simpl; [done|]. intros e He. apply Hs. congruence.
    + split; [done|]. split; simpl; [done|]. intros e.
      by rewrite lookup_delete_eq.
  - split; [done|]. split; simpl; [done|]. intros e He. congruence.
Qed.

(** An unservable key is a miss at any time, and stays unservable. *)
Lemma get_unservable key st :
  unservable key st ->
  (get key st).1 = VNull /\ unservable key (get key st).2.
Proof.
  intros Hu. unfold get, bind.
  destruct (getFromMemory_unservable key st Hu) as [H1 H2].
  destruct (getFromMemory key st) as [v st1]. simpl in *. subst v. simpl.
  destruct (getFromStorage_unservable key st1 H2) as [H3 H4].
  destruct (getFromStorage key st1) as [w st2]. simpl in *. subst w. simpl.
  done.
Qed.

Lemma cold_miss key st :
  memory_fresh key st = false -> durable_fresh key st = false ->
  (get key st).1 = VNull.
Proof.
  unfold memory_fresh. intros Hm Hd.
  assert (H1 : (getFromMemory key st).1 = VNull).
  { revert Hm. run. destruct (memoryCache st !! key) as [m|]; simpl; [|done].
    destruct (ttl m =? 0); simpl; [done|]. by intros ->. }
  rewrite get_memory_miss by done.
  apply getFromStorage_not_fresh.
  revert Hd. unfold durable_fresh.
  replace (localStorage (getFromMemory key st).2) with (localStorage st).
  2:{ run. repeat (case_match; simpl in *; simplify_eq); done. }
  replace (clock (getFromMemory key st).2) with (clock st).
  2:{ run. repeat (case_match; simpl in *; simplify_eq); done. }
  done.
Qed.

Lemma occurrences_log e st st' e' :
  log st' = log st ++ [e'] ->
  occurrences e st' = (occurrences e st + if bool_decide (e' = e) then 1 else 0)%nat.
Proof.
  intros H. unfold occurrences. rewrite H, List.filter_app, length_app.
  simpl. by destruct (bool_decide (e' = e)).
Qed.

Lemma occurrences_same e st st' :
  log st' = log st -> occurrences e st' = occurrences e st.
Proof. unfold occurrences. by intros ->. Qed.

(** A miss with nothing in flight starts the fetcher and registers its
    promise. *)
Lemma deduplicatedFetch_starts key t persist st :
  (get key st).1 = VNull -> inFlightRequests st !! key = None ->
  let r := deduplicatedFetch key t persist st in
  let p := length (operations st) in
  r.1 = Awaits p
  /\ unservable key r.2
  /\ inFlightRequests r.2 = <[key := p]> (inFlightRequests st)
  /\ operations r.2 = operations st ++ [mkOp key t persist Pending]
  /\ log r.2 = log st ++ [FetcherCalled key]
  /\ memoryCache r.2 = memoryCache (get key st).2
  /\ localStorage r.2 = localStorage (get key st).2.
Proof.
  intros Hmiss Hfl. pose proof (get_miss key st Hmiss) as Hu.
  destruct (get_frame key st) as (Hf & Ho & Hl & _).
  unfold deduplicatedFetch, bind.
  destruct (get key st) as [v st1]. simpl in *. subst v. simpl.
  unfold getInFlight. rewrite Hf, Hfl. simpl.
  unfold call_fetcher, setInFlight, ret. simpl.
  rewrite Ho, Hl, Hf. splits; done.
Qed.

(** A miss while a promise is registered for the key hands out that
    promise and starts nothing. *)
Lemma deduplicatedFetch_joins key t persist st p :
  unservable key st -> inFlightRequests st !! key = Some p ->
  let r := deduplicatedFetch key t persist st in
  r.1 = Awaits p
  /\ unservable key r.2
  /\ inFlightRequests r.2 = inFlightRequests st
  /\ operations r.2 = operations st
  /\ log r.2 = log st.
Proof.
  intros Hu Hfl. destruct (get_unservable key st Hu) as [Hmiss Hu'].
  destruct (get_frame key st) as (Hf & Ho & Hl & _).
  unfold deduplicatedFetch, bind.
  destruct (get key st) as [v st1]. simpl in *. subst v. simpl.
  unfold getInFlight. rewrite Hf, Hfl. simpl. done.
Qed.

Lemma callers_join key t persist p gaps : forall st,
  unservable key st -> inFlightRequests st !! key = Some p ->
  let r := callers key t persist gaps st in
  Forall (fun a => a = Awaits p) r.1
  /\ length r.1 = length gaps
  /\ unservable key r.2
  /\ inFlightRequests r.2 = inFlightRequests st
  /\ operations r.2 = operations st
  /\ log r.2 = log st.
Proof.
  induction gaps as [|d gaps IH]; intros st Hu Hfl; cbn [callers].
  - unfold ret. simpl. splits; done.
  - rewrite !bind_eq. unfold ret. cbn [fst snd].
    set (st1 := (advance d st).2).
    assert (Hu1 : unservable key st1) by exact Hu.
    assert (Hfl1 : inFlightRequests st1 !! key = Some p) by exact Hfl.
    destruct (deduplicatedFetch_joins key t persist st1 p Hu1 Hfl1)
      as (Ha & Hu2 & Hf2 & Ho2 & Hl2).
    set (st2 := (deduplicatedFetch key t persist st1).2) in *.
    assert (Hfl2 : inFlightRequests st2 !! key = Some p) by by rewrite Hf2.
    destruct (IH st2 Hu2 Hfl2) as (Hall & Hlen & Hu3 & Hf3 & Ho3 & Hl3).
    splits.
    + by constructor.
    + cbn [length]. f_equal. exact Hlen.
    + done.
    + by rewrite Hf3, Hf2.
    + by rewrite Ho3, Ho2.
    + by rewrite Hl3, Hl2.
Qed.

(** The fetcher's promise of a pending operation settles. *)
Lemma settle_pending p o st key t persist :
  operations st !! p = Some (mkOp key t persist Pending) ->
  let st' := (settle p o st).2 in
  inFlightRequests st' = delete key (inFlightRequests st)
  /\ log st' = log st ++ [InFlightDeleted key]
  /\ observed (Awaits p) st' = settled_as o
  /\ match o with
     | Resolves d =>
         memoryCache st' = memoryCache (set key d t persist st).2
         /\ localStorage st' = localStorage (set key d t persist st).2
     | Rejects _ =>
         memoryCache st' = memoryCache st /\ localStorage st' = localStorage st
     end.
Proof.
  intros Hop. unfold settle. rewrite Hop. destruct o as [d|reason].
  - unfold bind. destruct (set key d t persist st) as [[] st1] eqn:Eset.
    assert (Hfr : inFlightRequests st1 = inFlightRequests st
                  /\ operations st1 = operations st /\ log st1 = log st).
    { revert Eset. run. destruct (persist && (0 <? t)); simpl;
        intros; simplify_eq; done. }
    destruct Hfr as (Hf & Ho & Hl).
    unfold settle_promise, finally_callback, observed. simpl.
    rewrite Hf, Hl, Ho. rewrite list_lookup_alter_eq, Hop. simpl. done.
  - unfold bind, settle_promise, finally_callback, observed. simpl.
    rewrite list_lookup_alter_eq, Hop. simpl. done.
Qed.

Lemma advance_frame d st :
  memoryCache (advance d st).2 = memoryCache st
  /\ localStorage (advance d st).2 = localStorage st
  /\ inFlightRequests (advance d st).2 = inFlightRequests st
  /\ operations (advance d st).2 = operations st
  /\ log (advance d st).2 = log st.
Proof. done. Qed.

Lemma unservable_ext key st st' :
  memoryCache st' = memoryCache st -> localStorage st' = localStorage st ->
  unservable key st -> unservable key st'.
Proof. unfold unservable. by intros -> ->. Qed.

(** C1. From a state with no valid entry and no pending operation for
    [key], let one caller and then any number of further callers (at any
    later times) call [deduplicatedFetch] for [key] before the operation
    settles.  The fetcher is invoked exactly once; every caller holds the
    same promise, which is pending until the operation settles and then
    shows that operation's outcome, success or failure alike; the in-flight
    entry for [key] stays until then and is removed exactly once by the
    settlement. *)
Theorem coalesced_callers_share_one_fetch (st : State) (key : string)
    (t : Z) (persist : bool) (gaps : list Z) (wait : Z) (o : Outcome) :
  memory_fresh key st = false ->
  durable_fresh key st = false ->
  inFlightRequests st !! key = None ->
  let first := deduplicatedFetch key t persist st in
  let rest := callers key t persist gaps first.2 in
  let p := length (operations st) in
  let answers := first.1 :: rest.1 in
  let settled := (settle p o (advance wait rest.2).2).2 in
  length answers = S (length gaps)
  /\ Forall (fun a => a = Awaits p) answers
  /\ occurrences (FetcherCalled key) rest.2
     = S (occurrences (FetcherCalled key) st)
  /\ occurrences (FetcherCalled key) settled
     = S (occurrences (FetcherCalled key) st)
  /\ Forall (fun a => observed a rest.2 = Pending) answers
  /\ Forall (fun a => observed a settled = settled_as o) answers
  /\ inFlightRequests rest.2 !! key = Some p
  /\ occurrences (InFlightDeleted key) rest.2
     = occurrences (InFlightDeleted key) st
  /\ inFlightRequests settled !! key = None
  /\ occurrences (InFlightDeleted key) settled
     = S (occurrences (InFlightDeleted key) st).
Proof.
  intros Hm Hd Hfl first rest p answers settled.
  pose proof (cold_miss key st Hm Hd) as Hmiss.
  destruct (deduplicatedFetch_starts key t persist st Hmiss Hfl)
    as (Ha & Hu & Hf & Ho & Hl & _ & _).
  fold first p in Ha, Hu, Hf, Ho, Hl.
  assert (Hfl1 : inFlightRequests first.2 !! key = Some p).
  { rewrite Hf. apply lookup_insert_eq. }
  destruct (callers_join key t persist p gaps first.2 Hu Hfl1)
    as (Hall & Hlen & Hu2 & Hf2 & Ho2 & Hl2).
  fold rest in Hall, Hlen, Hu2, Hf2, Ho2, Hl2.
  assert (Hop : operations (advance wait rest.2).2 !! p
                = Some (mkOp key t persist Pending)).
  { cbn [advance snd operations]. rewrite Ho2, Ho.
    subst p. rewrite lookup_app_r, Nat.sub_diag by done. done. }
  destruct (settle_pending p o _ key t persist Hop) as (Hf3 & Hl3 & Hobs & _).
  fold settled in Hf3, Hl3, Hobs.
  assert (Hans : Forall (fun a => a = Awaits p) answers).
  { subst answers. by constructor. }
  assert (Hlog : log rest.2 = log st ++ [FetcherCalled key])
    by (by rewrite Hl2, Hl).
  splits.
  - subst answers. cbn [length]. by f_equal.
  - done.
  - rewrite (occurrences_log _ st _ _ Hlog).
    rewrite bool_decide_eq_true_2 by done. lia.
  - rewrite (occurrences_log _ (advance wait rest.2).2 _ _ Hl3).
    rewrite bool_decide_eq_false_2 by done.
    rewrite (occurrences_same _ rest.2) by done.
    rewrite (occurrences_log _ st _ _ Hlog).
    rewrite bool_decide_eq_true_2 by done. lia.
  - eapply Forall_impl; [exact Hans|]. intros a ->. unfold observed.
    rewrite Ho2, Ho. subst p.
    rewrite lookup_app_r, Nat.sub_diag by done. done.
  - eapply Forall_impl; [exact Hans|]. by intros a ->.
  - by rewrite Hf2.
  - rewrite (occurrences_log _ st _ _ Hlog).
    rewrite bool_decide_eq_false_2 by done. lia.
  - rewrite Hf3. apply lookup_delete_eq.
  - rewrite (occurrences_log _ (advance wait rest.2).2 _ _ Hl3).
    rewrite bool_decide_eq_true_2 by done.
    rewrite (occurrences_same _ rest.2) by done.
    rewrite (occurrences_log _ st _ _ Hlog).
    rewrite bool_decide_eq_false_2 by done. lia.
Qed.

Lemma coalesced_callers_share_one_fetch_witness :
  let first := deduplicatedFetch "/v1/genata" DEFAULT true initial in
  let rest := callers "/v1/genata" DEFAULT true [0; 5; 20] first.2 in
  let settled :=
    (settle 0 (Rejects "HTTP 500") (advance 100 rest.2).2).2 in
  Forall (fun a => a = Awaits 0%nat) (first.1 :: rest.1)
  /\ occurrences (FetcherCalled "/v1/genata") settled = 1%nat
  /\ Forall (fun a => observed a settled = Rejected "HTTP 500")
            (first.1 :: rest.1)
  /\ inFlightRequests settled !! "/v1/genata" = None
  /\ occurrences (InFlightDeleted "/v1/genata") settled = 1%nat.
Proof.
  pose proof (coalesced_callers_share_one_fetch initial "/v1/genata" DEFAULT
                true [0; 5; 20] 100 (Rejects "HTTP 500")
                eq_refl eq_refl eq_refl) as H.
  cbv zeta in H. destruct H as (_ & H2 & _ & H4 & _ & H6 & _ & _ & H9 & H10).
  cbv zeta. splits; [exact H2|exact H4|exact H6|exact H9|exact H10].
Defined.

(** C6. When the operation started by a [deduplicatedFetch] call fails, the
    settlement writes neither tier (whatever [ttl] and [persist] were), the
    key stays unservable, and the next caller, at any later time, invokes
    the fetcher again and gets a new pending promise. *)
Theorem failed_fetch_not_cached (st : State) (key : string) (t : Z)
    (persist : bool) (reason : string) (wait later : Z)
    (t' : Z) (persist' : bool) :
  (get key st).1 = VNull ->
  inFlightRequests st !! key = None ->
  let started := (deduplicatedFetch key t persist st).2 in
  let p := length (operations st) in
  let failed := (settle p (Rejects reason) (advance wait started).2).2 in
  let next := deduplicatedFetch key t' persist' (advance later failed).2 in
  observed (Awaits p) failed = Rejected reason
  /\ memoryCache failed = memoryCache started
  /\ localStorage failed = localStorage started
  /\ (get key (advance later failed).2).1 = VNull
  /\ inFlightRequests failed !! key = None
  /\ next.1 = Awaits (S p)
  /\ observed next.1 next.2 = Pending
  /\ occurrences (FetcherCalled key) next.2
     = S (S (occurrences (FetcherCalled key) st)).
Proof.
  intros Hmiss Hfl started p failed next.
  destruct (deduplicatedFetch_starts key t persist st Hmiss Hfl)
    as (Ha & Hu & Hf & Ho & Hl & _ & _).
  fold started p in Ha, Hu, Hf, Ho, Hl.
  assert (Hop : operations (advance wait started).2 !! p
                = Some (mkOp key t persist Pending)).
  { cbn [advance snd operations]. rewrite Ho. subst p.
    rewrite lookup_app_r, Nat.sub_diag by done. done. }
  destruct (settle_pending p (Rejects reason) _ key t persist Hop)
    as (Hf3 & Hl3 & Hobs & Hm3 & Hs3).
  fold failed in Hf3, Hl3, Hobs, Hm3, Hs3.
  assert (Hu3 : unservable key (advance later failed).2).
  { apply (unservable_ext key started); [exact Hm3|exact Hs3|done]. }
  assert (Hfl3 : inFlightRequests (advance later failed).2 !! key = None).
  { cbn [advance snd inFlightRequests]. rewrite Hf3. apply lookup_delete_eq. }
  destruct (get_unservable key _ Hu3) as [Hmiss3 _].
  destruct (deduplicatedFetch_starts key t' persist' _ Hmiss3 Hfl3)
    as (Ha4 & _ & _ & Ho4 & Hl4 & _ & _).
  fold next in Ha4, Ho4, Hl4.
  assert (Hlen : length (operations (advance later failed).2) = S p).
  { cbn [advance snd operations]. unfold failed, settle. rewrite Hop.
    unfold bind, settle_promise, finally_callback. cbn.
    rewrite length_alter, Ho, length_app. subst p. simpl. lia. }
  rewrite Hlen in Ha4.
  splits; try done.
  - rewrite Ha4. unfold observed. rewrite Ho4, <- Hlen.
    rewrite lookup_app_r, Nat.sub_diag by done. done.
  - rewrite (occurrences_log _ (advance later failed).2 _ _ Hl4).
    rewrite bool_decide_eq_true_2 by done.
    rewrite (occurrences_same _ failed) by done.
    rewrite (occurrences_log _ (advance wait started).2 _ _ Hl3).
    rewrite bool_decide_eq_false_2 by done.
    rewrite (occurrences_same _ started) by done.
    rewrite (occurrences_log _ st _ _ Hl).
    rewrite bool_decide_eq_true_2 by done. lia.
Qed.

Lemma failed_fetch_not_cached_witness :
  let started := (deduplicatedFetch "/v1/genata" DEFAULT true initial).2 in
  let failed := (settle 0 (Rejects "HTTP 500") (advance 40 started).2).2 in
  let next := deduplicatedFetch "/v1/genata" DEFAULT true (advance 0 failed).2 in
  memoryCache failed = memoryCache started
  /\ localStorage failed = localStorage started
  /\ next.1 = Awaits 1%nat
  /\ occurrences (FetcherCalled "/v1/genata") next.2 = 2%nat.
Proof.
  pose proof (failed_fetch_not_cached initial "/v1/genata" DEFAULT true
                "HTTP 500" 40 0 DEFAULT true eq_refl eq_refl) as H.
  cbv zeta in H. destruct H as (_ & H2 & H3 & _ & _ & H6 & _ & H8).
  cbv zeta. splits; [exact H2|exact H3|exact H6|exact H8].
Defined.

(** ** Cache keys *)

Lemma ascii_compare_trans a b c o :
  Ascii.compare a b = o -> Ascii.compare b c = o -> Ascii.compare a c = o.
Proof.
  unfold Ascii.compare. destruct o; intros H1 H2.
  - apply N.compare_eq_iff in H1, H2. apply N.compare_eq_iff. congruence.
  - apply N.compare_lt_iff in H1, H2. apply N.compare_lt_iff.
    by eapply N.lt_trans.
  - apply N.compare_gt_iff in H1, H2. apply N.compare_gt_iff.
    by eapply N.lt_trans.
Qed.

Lemma string_compare_trans_le : forall s1 s2 s3,
  String.compare s1 s2 <> Gt -> String.compare s2 s3 <> Gt ->
  String.compare s1 s3 <> Gt.
Proof.
  induction s1 as [|a s1 IH]; intros [|b s2] [|c s3]; simpl; try done.
  destruct (Ascii.compare a b) eqn:Eab; [| |done];
    destruct (Ascii.compare b c) eqn:Ebc; try done.
  - rewrite (ascii_compare_trans a b c Eq) by done. apply IH.
  - apply Ascii.compare_eq_iff in Eab. subst. by rewrite Ebc.
  - apply Ascii.compare_eq_iff in Ebc. subst. by rewrite Eab.
  - by rewrite (ascii_compare_trans a b c Lt).
Qed.

Global Instance code_unit_le_trans : Transitive code_unit_le.
Proof.
  intros s1 s2 s3. unfold code_unit_le, String.leb. intros H1 H2.
  pose proof (string_compare_trans_le s1 s2 s3) as H.
  destruct (String.compare s1 s2), (String.compare s2 s3),
    (String.compare s1 s3); try done; exfalso; by apply H.
Qed.

Global Instance code_unit_le_total : Total code_unit_le.
Proof. intros a b. apply String.leb_total. Qed.

Global Instance code_unit_le_antisym : AntiSymm (=) code_unit_le.
Proof. intros a b. apply String.leb_antisym. Qed.

(** X1. The cache key does not depend on the order in which the
    properties of the parameter object were inserted. *)
Theorem makeCacheKey_insertion_order (endpoint : string)
    (ps ps' : ParamObject) :
  NoDup (Object_keys ps) ->
  ps ≡ₚ ps' ->
  makeCacheKey endpoint (Some ps) = makeCacheKey endpoint (Some ps').
Proof.
  intros Hnd Hperm. unfold makeCacheKey, Object_keys.
  assert (Hkeys : ps.*1 ≡ₚ ps'.*1) by by rewrite Hperm.
  rewrite <- (Permutation_length Hkeys).
  destruct (length ps.*1 =? 0)%nat; [done|].
  assert (Hsorted : merge_sort code_unit_le ps.*1
                    = merge_sort code_unit_le ps'.*1).
  { apply (Sorted_unique code_unit_le); try apply Sorted_merge_sort; try apply _.
    by rewrite !merge_sort_Permutation. }
  rewrite Hsorted. unfold property.
  by rewrite (list_to_map_proper (M:=gmap string) ps ps').
Qed.

Lemma makeCacheKey_insertion_order_witness :
  makeCacheKey "/v1/wpdetaillist"
    (Some [("echeworkpackid", PString "7"); ("acid", PNumber 12)])
  = makeCacheKey "/v1/wpdetaillist"
      (Some [("acid", PNumber 12); ("echeworkpackid", PString "7")]).
Proof.
  apply makeCacheKey_insertion_order.
  - apply (bool_decide_unpack _). vm_compute. reflexivity.
  - apply perm_swap.
Defined.

(** ** Reads and writes *)

Lemma is_null_false v : v <> VNull -> is_null v = false.
Proof. by destruct v. Qed.

(** What a read returns, from what the two tiers hold for the key and the
    clock reading. *)
Definition served (m : option CacheEntry) (s : option StoredText) (now : Z)
  : Value :=
  let from_storage :=
    match s with
    | Some (EntryText e) =>
        if (0 <? ttl e) && (now - timestamp e <? ttl e) then data e else VNull
    | _ => VNull
    end in
  match m with
  | Some e =>
      if negb (ttl e =? 0) && (now - timestamp e <? ttl e)
         && negb (is_null (data e))
      then data e else from_storage
  | None => from_storage
  end.

Lemma get_served key st :
  (get key st).1
  = served (memoryCache st !! key)
           (localStorage st !! (STORAGE_PREFIX +:+ key)) (clock st).
Proof.
  unfold served. run.
  destruct (memoryCache st !! key) as [m|]; simpl;
    [destruct (ttl m =? 0); simpl;
     [|destruct (clock st - timestamp m <? ttl m); simpl;
       [destruct (is_null (data m)) eqn:En; simpl; [|done]|]]|];
    (destruct (localStorage st !! _) as [[e|s]|]; simpl;
     [|by destruct s|done]);
    (destruct ((0 <? ttl e) && (clock st - timestamp e <? ttl e)); simpl;
     [|done]);
    destruct (is_null (data e)) eqn:Ee; simpl; try done;
    by apply is_null_true in Ee.
Qed.

(** A read only looks at what the two tiers hold for the key and at the
    clock. *)
Lemma get_ext key st st' :
  memoryCache st' !! key = memoryCache st !! key ->
  localStorage st' !! (STORAGE_PREFIX +:+ key)
  = localStorage st !! (STORAGE_PREFIX +:+ key) ->
  clock st' = clock st ->
  (get key st').1 = (get key st).1.
Proof. intros Hm Hs Hc. rewrite !get_served. by rewrite Hm, Hs, Hc. Qed.

Lemma get_memory_hit key st e :
  memoryCache st !! key = Some e ->
  ttl e <> 0 ->
  clock st - timestamp e < ttl e ->
  data e <> VNull ->
  get key st = (data e, st).
Proof.
  intros Hm Ht Hc Hd. run. rewrite Hm. simpl.
  rewrite (proj2 (Z.eqb_neq _ _) Ht). simpl.
  rewrite (proj2 (Z.ltb_lt _ _) Hc). simpl.
  by rewrite (is_null_false _ Hd).
Qed.

Lemma get_storage_hit key st e :
  memory_fresh key st = false ->
  localStorage st !! (STORAGE_PREFIX +:+ key) = Some (EntryText e) ->
  0 < ttl e ->
  clock st - timestamp e < ttl e ->
  data e <> VNull ->
  (get key st).1 = data e.
Proof.
  intros Hm Hs Ht Hc Hd. unfold memory_fresh in Hm.
  assert (Hfresh : (0 <? ttl e) && (clock st - timestamp e <? ttl e) = true).
  { apply andb_true_iff. split; apply Z.ltb_lt; lia. }
  pose proof (is_null_false _ Hd) as Hnn.
  run.
  destruct (memoryCache st !! key) as [m|] eqn:Em; simpl in *.
  - destruct (ttl m =? 0) eqn:E0; simpl in *.
    + rewrite Hs. simpl. rewrite Hfresh. simpl. by rewrite Hnn.
    + rewrite Hm. simpl. rewrite Hs. simpl. rewrite Hfresh. simpl.
      by rewrite Hnn.
  - rewrite Hs. simpl. rewrite Hfresh. simpl. by rewrite Hnn.
Qed.

Lemma set_memory key v t persist st :
  memoryCache (set key v t persist st).2
  = <[key := mkEntry v (clock st) t]> (memoryCache st).
Proof. run. by destruct (persist && (0 <? t)). Qed.

Lemma set_storage key v t persist st :
  localStorage (set key v t persist st).2
  = if persist && (0 <? t)
    then <[STORAGE_PREFIX +:+ key := EntryText (mkEntry v (clock st) t)]>
           (localStorage st)
    else localStorage st.
Proof. run. by destruct (persist && (0 <? t)). Qed.

Lemma set_frame key v t persist st :
  clock (set key v t persist st).2 = clock st
  /\ inFlightRequests (set key v t persist st).2 = inFlightRequests st
  /\ operations (set key v t persist st).2 = operations st
  /\ log (set key v t persist st).2 = log st.
Proof. run. by destruct (persist && (0 <? t)). Qed.

(** X2. A value written with a positive [ttl] is read back as long as less
    than [ttl] has elapsed, whether or not it was persisted. *)
Theorem set_then_get_within_ttl (st : State) (key : string) (v : Value)
    (t : Z) (persist : bool) (elapsed : Z) :
  v <> VNull ->
  0 <= elapsed < t ->
  (get key (advance elapsed (set key v t persist st).2).2).1 = v.
Proof.
  intros Hv Ht.
  destruct (set_frame key v t persist st) as (Hc & _).
  rewrite (get_memory_hit key _ (mkEntry v (clock st) t)); simpl; try done.
  - rewrite set_memory. apply lookup_insert_eq.
  - lia.
  - rewrite Hc. lia.
Qed.

Lemma set_then_get_within_ttl_witness :
  (get "/v1/eche" (advance 59999 (set "/v1/eche" (VNum 3) SHORT false initial).2).2).1
  = VNum 3.
Proof.
  apply set_then_get_within_ttl; [discriminate|unfold SHORT; lia].
Defined.

(** X3. Once [ttl] has elapsed, a persisted entry is no longer served, and
    the read that finds it expired removes it from both tiers. *)
Theorem set_then_get_after_ttl (st : State) (key : string) (v : Value)
    (t : Z) (elapsed : Z) :
  0 < t ->
  t <= elapsed ->
  let r := get key (advance elapsed (set key v t true st).2).2 in
  r.1 = VNull
  /\ memoryCache r.2 !! key = None
  /\ localStorage r.2 !! (STORAGE_PREFIX +:+ key) = None.
Proof.
  intros Ht He.
  pose proof (set_memory key v t true st) as Hm.
  pose proof (set_storage key v t true st) as Hs.
  destruct (set_frame key v t true st) as (Hc & _).
  rewrite (proj2 (Z.ltb_lt 0 t) Ht) in Hs. simpl in Hs.
  set (st1 := (set key v t true st).2) in *.
  assert (H0 : (t =? 0) = false) by (apply Z.eqb_neq; lia).
  assert (H1 : (clock st1 + elapsed - clock st <? t) = false)
    by (apply Z.ltb_ge; lia).
  unfold get, getFromMemory, getFromStorage, isValid, bind, memory_get,
    memory_delete, getItem, removeItem, with_storage, Date_now, ret, advance.
  simpl. rewrite Hm, lookup_insert_eq. simpl. rewrite H0. simpl.
  rewrite H1. simpl. rewrite Hs, lookup_insert_eq. simpl.
  rewrite H1, andb_false_r. simpl.
  rewrite !lookup_delete_eq. done.
Qed.

Lemma set_then_get_after_ttl_witness :
  (get "/v1/eche" (advance 60000 (set "/v1/eche" (VNum 3) SHORT true initial).2).2).1
  = VNull.
Proof.
  apply (set_then_get_after_ttl initial "/v1/eche" (VNum 3) SHORT 60000);
    unfold SHORT; lia.
Defined.

(** X4. A persisted entry survives a reload of the page: within its [ttl]
    it is served from the durable tier by the new page. *)
Theorem persisted_entry_survives_reload (st : State) (key : string)
    (v : Value) (t : Z) (elapsed : Z) :
  v <> VNull ->
  0 <= elapsed < t ->
  (get key (reload (advance elapsed (set key v t true st).2).2)).1 = v.
Proof.
  intros Hv Ht.
  pose proof (set_storage key v t true st) as Hs.
  destruct (set_frame key v t true st) as (Hc & _).
  assert (Hpos : (0 <? t) = true) by (apply Z.ltb_lt; lia).
  rewrite Hpos in Hs. simpl in Hs.
  apply (get_storage_hit key _ (mkEntry v (clock st) t)); simpl; try done.
  - rewrite Hs. apply lookup_insert_eq.
  - lia.
  - rewrite Hc. lia.
Qed.

Lemma persisted_entry_survives_reload_witness :
  (get "/v1/genata"
     (reload (advance 3600000
                (set "/v1/genata" (VStr "ATA") REFERENTIALS true initial).2).2)).1
  = VStr "ATA".
Proof.
  apply persisted_entry_survives_reload;
    [discriminate|unfold REFERENTIALS; lia].
Defined.


(** ** Invalidation *)

Lemma string_prefix_app a b c :
  String.prefix (a +:+ b) (a +:+ c) = String.prefix b c.
Proof.
  induction a as [|x a IH]; simpl; [done|].
  by destruct (Ascii.ascii_dec x x).
Qed.

Lemma string_prefix_app_l a b s :
  String.prefix (a +:+ b) s = true -> String.prefix a s = true.
Proof.
  revert s. induction a as [|x a IH]; intros [|y s]; simpl; try done.
  destruct (Ascii.ascii_dec x y); [apply IH|done].
Qed.

Lemma string_prefix_app_r a c : String.prefix a (a +:+ c) = true.
Proof.
  induction a as [|x a IH]; simpl; [by destruct c|].
  by destruct (Ascii.ascii_dec x x).
Qed.

Lemma string_prefix_refl a : String.prefix a a = true.
Proof. induction a as [|x a IH]; simpl; [done|]. by destruct (Ascii.ascii_dec x x). Qed.

Lemma string_app_cancel a b c : a +:+ b = a +:+ c -> b = c.
Proof. induction a as [|x a IH]; simpl; [done|]. intros [=]. auto. Qed.

Lemma elem_of_memory_keys (m : gmap string CacheEntry) k :
  k ∈ memory_keys m <-> is_Some (m !! k).
Proof.
  unfold memory_keys. rewrite list_elem_of_fmap. split.
  - intros [[k' t] [-> Hin]]. apply elem_of_map_to_list in Hin. eauto.
  - intros [t Ht]. exists (k, t). split; [done|].
    by apply elem_of_map_to_list.
Qed.

Lemma memory_deleteMatching_lookup prefix keys : forall st k,
  memoryCache (memory_deleteMatching prefix keys st).2 !! k =
  if String.prefix prefix k && bool_decide (k ∈ keys) then None
  else memoryCache st !! k.
Proof.
  induction keys as [|k' keys IH]; intros st k; cbn [memory_deleteMatching].
  - rewrite (bool_decide_eq_false_2 (k ∈ [])) by apply not_elem_of_nil.
    by rewrite andb_false_r.
  - rewrite bind_eq, IH.
    destruct (decide (k = k')) as [->|Hne].
    + rewrite (bool_decide_eq_true_2 (k' ∈ k' :: keys))
        by apply list_elem_of_here.
      rewrite andb_true_r.
      destruct (String.prefix prefix k') eqn:Hp; simpl.
      * case_bool_decide; [done|]. apply lookup_delete_eq.
      * done.
    + rewrite (bool_decide_ext (k ∈ k' :: keys) (k ∈ keys)).
      2:{ split; [intros [?|?]%elem_of_cons|intros ?; apply elem_of_cons];
          tauto. }
      destruct (String.prefix prefix k && bool_decide (k ∈ keys)); [done|].
      destruct (String.prefix prefix k'); simpl; [|done].
      by apply lookup_delete_ne.
Qed.

Lemma memory_deleteMatching_frame prefix keys : forall st,
  localStorage (memory_deleteMatching prefix keys st).2 = localStorage st
  /\ inFlightRequests (memory_deleteMatching prefix keys st).2
     = inFlightRequests st
  /\ operations (memory_deleteMatching prefix keys st).2 = operations st
  /\ log (memory_deleteMatching prefix keys st).2 = log st
  /\ clock (memory_deleteMatching prefix keys st).2 = clock st.
Proof.
  induction keys as [|k' keys IH]; intros st; cbn [memory_deleteMatching];
    [done|].
  rewrite bind_eq.
  destruct (IH ((if String.prefix prefix k' then memory_delete k'
                 else ret tt) st).2) as (H1 & H2 & H3 & H4 & H5).
  rewrite H1, H2, H3, H4, H5. by destruct (String.prefix prefix k').
Qed.

Lemma removeAll_frame keys : forall st,
  inFlightRequests (removeAll keys st).2 = inFlightRequests st
  /\ operations (removeAll keys st).2 = operations st
  /\ log (removeAll keys st).2 = log st
  /\ clock (removeAll keys st).2 = clock st.
Proof.
  induction keys as [|k keys IH]; intros st; cbn [removeAll]; [done|].
  rewrite bind_eq. destruct (IH (removeItem k st).2) as (H1 & H2 & H3 & H4).
  by rewrite H1, H2, H3, H4.
Qed.

(** Both tiers after [invalidatePrefix(prefix)]. *)
Lemma invalidatePrefix_tiers prefix st :
  (forall k,
     memoryCache (invalidatePrefix prefix st).2 !! k =
     if String.prefix prefix k then None else memoryCache st !! k)
  /\ (forall sk,
        localStorage (invalidatePrefix prefix st).2 !! sk =
        if String.prefix (STORAGE_PREFIX +:+ prefix) sk then None
        else localStorage st !! sk)
  /\ clock (invalidatePrefix prefix st).2 = clock st.
Proof.
  unfold invalidatePrefix. rewrite bind_eq. cbn [snd].
  set (st1 := (memory_deleteMatching prefix (memory_keys (memoryCache st))
                 st).2).
  destruct (memory_deleteMatching_frame prefix (memory_keys (memoryCache st))
              st) as (Hs1 & _ & _ & _ & Hc1).
  fold st1 in Hs1, Hc1.
  splits.
  - intros k. rewrite removeAll_memory. subst st1.
    rewrite memory_deleteMatching_lookup.
    destruct (String.prefix prefix k); simpl; [|done].
    case_bool_decide as Hin; [done|].
    destruct (memoryCache st !! k) eqn:Hk; [|done].
    exfalso. apply Hin, elem_of_memory_keys. eauto.
  - intros sk. rewrite removeAll_lookup, Hs1.
    destruct (String.prefix (STORAGE_PREFIX +:+ prefix) sk) eqn:Hp.
    + case_bool_decide as Hin; [done|].
      destruct (localStorage st !! sk) as [t|] eqn:Hk; [|done].
      exfalso. apply Hin. apply list_elem_of_In, filter_In. split.
      * apply list_elem_of_In, elem_of_storage_keys. eauto.
      * rewrite Hp, andb_true_r. apply negb_true_iff, String.eqb_neq.
        intros ->. apply string_prefix_app_l in Hp. done.
    + rewrite bool_decide_eq_false_2; [done|].
      intros Hin%list_elem_of_In%filter_In. destruct Hin as [_ Hb].
      rewrite Hp, andb_false_r in Hb. done.
  - destruct (removeAll_frame
                (List.filter
                   (fun key => negb (String.eqb key "")
                      && String.prefix (STORAGE_PREFIX +:+ prefix) key)
                   (storage_keys (localStorage st1))) st1) as (_ & _ & _ & Hc).
    by rewrite Hc.
Qed.

(** X5. After [invalidatePrefix(prefix)] no key that starts with [prefix]
    can be read, at any later time; reads of every other key give what they
    gave before; storage items outside the cache namespace, the session
    token among them, are left alone. *)
Theorem invalidatePrefix_reads (prefix : string) (st : State) :
  let st' := (invalidatePrefix prefix st).2 in
  (forall key later,
     String.prefix prefix key = true ->
     (get key (advance later st').2).1 = VNull)
  /\ (forall key,
        String.prefix prefix key = false ->
        (get key st').1 = (get key st).1)
  /\ (forall sk,
        String.prefix STORAGE_PREFIX sk = false ->
        localStorage st' !! sk = localStorage st !! sk)
  /\ localStorage st' !! Api.TOKEN_KEY = localStorage st !! Api.TOKEN_KEY.
Proof.
  intros st'. destruct (invalidatePrefix_tiers prefix st) as (Hm & Hs & Hc).
  fold st' in Hm, Hs, Hc.
  assert (Hout : forall sk, String.prefix STORAGE_PREFIX sk = false ->
                            localStorage st' !! sk = localStorage st !! sk).
  { intros sk Hsk. rewrite Hs.
    destruct (String.prefix (STORAGE_PREFIX +:+ prefix) sk) eqn:Hp; [|done].
    apply string_prefix_app_l in Hp. congruence. }
  splits.
  - intros key later Hp. rewrite get_served.
    cbn [advance snd memoryCache localStorage clock].
    by rewrite Hm, Hs, string_prefix_app, Hp.
  - intros key Hp. apply get_ext; [| |done].
    + by rewrite Hm, Hp.
    + by rewrite Hs, string_prefix_app, Hp.
  - exact Hout.
  - by apply Hout.
Qed.

(** A cache holding two variants of one endpoint and another endpoint. *)
Definition three_entries : State :=
  run_events [EvSet "/a?x=1" (VNum 1) DEFAULT true;
              EvSet "/a?x=2" (VNum 2) DEFAULT true;
              EvSet "/b" (VNum 3) DEFAULT true] initial.

Lemma invalidatePrefix_reads_witness :
  (get "/a?x=1" (advance 0 (invalidatePrefix "/a" three_entries).2).2).1 = VNull
  /\ (get "/a?x=2" (advance 0 (invalidatePrefix "/a" three_entries).2).2).1 = VNull
  /\ (get "/b" (invalidatePrefix "/a" three_entries).2).1 = VNum 3.
Proof.
  destruct (invalidatePrefix_reads "/a" three_entries) as (H1 & H2 & _).
  split; [apply H1; reflexivity|].
  split; [apply H1; reflexivity|].
  rewrite H2 by reflexivity. vm_compute. reflexivity.
Defined.

(** X6. [invalidatePrefix(endpoint)] invalidates every cached variant of the
    endpoint: whatever the parameters, the key [makeCacheKey] builds for it
    cannot be read afterwards. *)
Theorem invalidatePrefix_covers_endpoint (endpoint : string)
    (params : option ParamObject) (st : State) (later : Z) :
  (get (makeCacheKey endpoint params)
       (advance later (invalidatePrefix endpoint st).2).2).1 = VNull.
Proof.
  assert (Hp : String.prefix endpoint (makeCacheKey endpoint params) = true).
  { unfold makeCacheKey. destruct params as [ps|].
    - destruct (length (Object_keys ps) =? 0)%nat.
      + apply string_prefix_refl.
      + apply string_prefix_app_r.
    - apply string_prefix_refl. }
  destruct (invalidatePrefix_tiers endpoint st) as (Hm & Hs & Hc).
  rewrite get_served. cbn [advance snd memoryCache localStorage clock].
  by rewrite Hm, Hs, string_prefix_app, Hp.
Qed.

(** X7. After [invalidate(key)] the key cannot be read, at any later time,
    whatever the two tiers held for it; reads of every other key give what
    they gave before. *)
Theorem invalidate_reads (key : string) (st : State) :
  let st' := (invalidate key st).2 in
  (forall later, (get key (advance later st').2).1 = VNull)
  /\ (forall other, other <> key -> (get other st').1 = (get other st).1).
Proof.
  intros st'. split.
  - intros later. rewrite get_served. subst st'.
    unfold invalidate, bind, memory_delete, removeItem, with_storage, advance.
    cbn [snd memoryCache localStorage clock].
    by rewrite !lookup_delete_eq.
  - intros other Hne. apply get_ext; subst st';
      unfold invalidate, bind, memory_delete, removeItem, with_storage;
      cbn [snd memoryCache localStorage clock]; [| |done].
    + by apply lookup_delete_ne.
    + apply lookup_delete_ne. intros Heq%string_app_cancel. congruence.
Qed.

Lemma invalidate_reads_witness :
  (get "/b" (advance 5 (invalidate "/b" three_entries).2).2).1 = VNull
  /\ (get "/a?x=1" (invalidate "/b" three_entries).2).1 = VNum 1.
Proof.
  destruct (invalidate_reads "/b" three_entries) as (H1 & H2).
  split; [apply H1|].
  rewrite H2 by discriminate. vm_compute. reflexivity.
Defined.

(** ** What the coalescer caches *)

Lemma deduplicatedFetch_hit key t persist st v :
  (get key st).1 = v -> v <> VNull ->
  deduplicatedFetch key t persist st = (Ready v, (get key st).2).
Proof.
  intros Hv Hnn. unfold deduplicatedFetch. rewrite bind_eq, Hv.
  by rewrite (is_null_false _ Hnn).
Qed.

Lemma settle_clock p o st : clock (settle p o st).2 = clock st.
Proof.
  unfold settle. destruct (operations st !! p) as [[key t persist []]|];
    try done.
  destruct o as [d|reason]; [|done].
  rewrite !bind_eq. cbn [settle_promise finally_callback snd clock].
  apply set_frame.
Qed.

(** X8. A successful fetch is cached: after the operation resolved with
    non-null data under a positive [ttl], a call made before [ttl] has
    elapsed gets the data at once and the fetcher is not invoked again. *)
Theorem resolved_fetch_is_cached (st : State) (key : string) (t : Z)
    (persist : bool) (d : Value) (wait later : Z) (t' : Z) (persist' : bool) :
  (get key st).1 = VNull ->
  inFlightRequests st !! key = None ->
  d <> VNull ->
  0 <= later < t ->
  let started := (deduplicatedFetch key t persist st).2 in
  let p := length (operations st) in
  let resolved := (settle p (Resolves d) (advance wait started).2).2 in
  let next := deduplicatedFetch key t' persist' (advance later resolved).2 in
  next.1 = Ready d
  /\ occurrences (FetcherCalled key) next.2
     = S (occurrences (FetcherCalled key) st)
  /\ operations next.2 = operations resolved.
Proof.
  intros Hmiss Hfl Hd Hlater started p resolved next.
  destruct (deduplicatedFetch_starts key t persist st Hmiss Hfl)
    as (_ & _ & _ & Ho & Hl & _ & _).
  fold started p in Ho, Hl.
  assert (Hop : operations (advance wait started).2 !! p
                = Some (mkOp key t persist Pending)).
  { cbn [advance snd operations]. rewrite Ho. subst p.
    rewrite lookup_app_r, Nat.sub_diag by done. done. }
  destruct (settle_pending p (Resolves d) _ key t persist Hop)
    as (_ & Hl3 & _ & Hm3 & _).
  fold resolved in Hl3, Hm3.
  pose proof (settle_clock p (Resolves d) (advance wait started).2) as Hc3.
  fold resolved in Hc3.
  rewrite set_memory in Hm3.
  assert (Hget : get key (advance later resolved).2
                 = (d, (advance later resolved).2)).
  { apply (get_memory_hit key _ (mkEntry d (clock (advance wait started).2) t));
      cbn [data ttl timestamp]; try done.
    - cbn [advance snd memoryCache]. rewrite Hm3. apply lookup_insert_eq.
    - lia.
    - cbn [advance snd clock] in *. rewrite Hc3. lia. }
  assert (Hnext : next = (Ready d, (advance later resolved).2)).
  { subst next. rewrite (deduplicatedFetch_hit key t' persist' _ d);
      [by rewrite Hget|by rewrite Hget|done]. }
  rewrite Hnext. cbn [fst snd]. splits; [done| |done].
  rewrite (occurrences_same _ resolved) by done.
  rewrite (occurrences_log _ (advance wait started).2 _ _ Hl3).
  rewrite bool_decide_eq_false_2 by done.
  rewrite (occurrences_same _ started) by done.
  rewrite (occurrences_log _ st _ _ Hl).
  rewrite bool_decide_eq_true_2 by done. lia.
Qed.

Lemma resolved_fetch_is_cached_witness :
  let started := (deduplicatedFetch "/v1/eche" SHORT true initial).2 in
  let resolved := (settle 0 (Resolves (VNum 8)) (advance 250 started).2).2 in
  let next := deduplicatedFetch "/v1/eche" SHORT true (advance 59999 resolved).2 in
  next.1 = Ready (VNum 8)
  /\ occurrences (FetcherCalled "/v1/eche") next.2 = 1%nat.
Proof.
  assert (H59 : 0 <= 59999 < SHORT) by (unfold SHORT; lia).
  assert (Hd : VNum 8 <> VNull) by discriminate.
  destruct (resolved_fetch_is_cached initial "/v1/eche" SHORT true (VNum 8)
              250 59999 SHORT true eq_refl eq_refl Hd H59) as (H1 & H2 & _).
  cbv zeta. split; [exact H1|exact H2].
Defined.

(** X9. A result fetched with [CACHE_TTL.NONE], and a [null] result under
    any [ttl], are never served from the cache: the next call, however
    soon, invokes the fetcher again. *)
Theorem uncacheable_fetch_refetched (st : State) (key : string) (t : Z)
    (persist : bool) (d : Value) (wait later : Z) (t' : Z) (persist' : bool) :
  (get key st).1 = VNull ->
  inFlightRequests st !! key = None ->
  t = 0 \/ d = VNull ->
  let started := (deduplicatedFetch key t persist st).2 in
  let p := length (operations st) in
  let resolved := (settle p (Resolves d) (advance wait started).2).2 in
  let next := deduplicatedFetch key t' persist' (advance later resolved).2 in
  observed (Awaits p) resolved = Fulfilled d
  /\ next.1 = Awaits (S p)
  /\ observed next.1 next.2 = Pending
  /\ occurrences (FetcherCalled key) next.2
     = S (S (occurrences (FetcherCalled key) st)).
Proof.
  intros Hmiss Hfl Hun started p resolved next.
  destruct (deduplicatedFetch_starts key t persist st Hmiss Hfl)
    as (_ & Hu & _ & Ho & Hl & _ & _).
  fold started p in Hu, Ho, Hl.
  assert (Hop : operations (advance wait started).2 !! p
                = Some (mkOp key t persist Pending)).
  { cbn [advance snd operations]. rewrite Ho. subst p.
    rewrite lookup_app_r, Nat.sub_diag by done. done. }
  destruct (settle_pending p (Resolves d) _ key t persist Hop)
    as (Hf3 & Hl3 & Hobs & Hm3 & Hs3).
  fold resolved in Hf3, Hl3, Hobs, Hm3, Hs3.
  rewrite set_memory in Hm3. rewrite set_storage in Hs3.
  cbn [advance snd memoryCache localStorage clock] in Hm3, Hs3.
  assert (Hmiss3 : (get key (advance later resolved).2).1 = VNull).
  { rewrite get_served. cbn [advance snd memoryCache localStorage clock].
    rewrite Hm3, lookup_insert_eq. unfold served. cbn [ttl data timestamp].
    destruct Hu as [_ Hu].
    destruct Hun as [-> | ->].
    - rewrite andb_false_r in Hs3. rewrite Hs3. simpl.
      destruct (localStorage started !! _) as [[e|s]|] eqn:Es; try done.
      rewrite (Hu e eq_refl). by destruct (_ && _).
    - rewrite andb_false_r.
      destruct (persist && (0 <? t)).
      + rewrite Hs3, lookup_insert_eq. simpl. by destruct (_ && _).
      + rewrite Hs3.
        destruct (localStorage started !! _) as [[e|s]|] eqn:Es; try done.
        rewrite (Hu e eq_refl). by destruct (_ && _). }
  assert (Hfl3 : inFlightRequests (advance later resolved).2 !! key = None).
  { cbn [advance snd inFlightRequests]. rewrite Hf3. apply lookup_delete_eq. }
  destruct (deduplicatedFetch_starts key t' persist' _ Hmiss3 Hfl3)
    as (Ha4 & _ & _ & Ho4 & Hl4 & _ & _).
  fold next in Ha4, Ho4, Hl4.
  assert (Hlen : length (operations (advance later resolved).2) = S p).
  { cbn [advance snd operations]. unfold resolved, settle. rewrite Hop.
    rewrite !bind_eq. cbn [settle_promise finally_callback snd operations].
    destruct (set_frame key d t persist (advance wait started).2)
      as (_ & _ & Hos & _).
    rewrite length_alter, Hos. cbn [advance snd operations].
    rewrite Ho, length_app. subst p. simpl. lia. }
  rewrite Hlen in Ha4.
  splits; try done.
  - rewrite Ha4. unfold observed. rewrite Ho4, <- Hlen.
    rewrite lookup_app_r, Nat.sub_diag by done. done.
  - rewrite (occurrences_log _ (advance later resolved).2 _ _ Hl4).
    rewrite bool_decide_eq_true_2 by done.
    rewrite (occurrences_same _ resolved) by done.
    rewrite (occurrences_log _ (advance wait started).2 _ _ Hl3).
    rewrite bool_decide_eq_false_2 by done.
    rewrite (occurrences_same _ started) by done.
    rewrite (occurrences_log _ st _ _ Hl).
    rewrite bool_decide_eq_true_2 by done. lia.
Qed.

Lemma uncacheable_fetch_refetched_witness :
  let started := (deduplicatedFetch "/v1/eche" NONE true initial).2 in
  let resolved := (settle 0 (Resolves (VNum 8)) (advance 250 started).2).2 in
  let next := deduplicatedFetch "/v1/eche" NONE true (advance 0 resolved).2 in
  next.1 = Awaits 1%nat
  /\ occurrences (FetcherCalled "/v1/eche") next.2 = 2%nat.
Proof.
  destruct (uncacheable_fetch_refetched initial "/v1/eche" NONE true (VNum 8)
              250 0 NONE true eq_refl eq_refl (or_introl eq_refl))
    as (_ & H1 & _ & H2).
  cbv zeta. split; [exact H1|exact H2].
Defined.

(** ** The in-flight table over whole runs *)



Lemma clearAll_frame st :
  inFlightRequests (clearAll st).2 = inFlightRequests st
  /\ operations (clearAll st).2 = operations st
  /\ log (clearAll st).2 = log st
  /\ clock (clearAll st).2 = clock st.
Proof.
  unfold clearAll. rewrite bind_eq. cbn [snd].
  destruct (removeAll_frame
              (List.filter
                 (fun key => negb (String.eqb key "")
                    && String.prefix STORAGE_PREFIX key)
                 (storage_keys (localStorage (memory_clear st).2)))
              (memory_clear st).2) as (H1 & H2 & H3 & H4).
  by rewrite H1, H2, H3, H4.
Qed.









Lemma clearAll_storage st k :
  localStorage (clearAll st).2 !! k =
  if String.prefix STORAGE_PREFIX k then None else localStorage st !! k.
Proof.
  unfold clearAll, bind, memory_clear. simpl.
  rewrite removeAll_lookup. simpl.
  destruct (String.prefix STORAGE_PREFIX k) eqn:Hp.
  - case_bool_decide as Hin; [done|].
    destruct (localStorage st !! k) as [t|] eqn:Hk; [|done].
    exfalso. apply Hin. apply list_elem_of_In, filter_In. split.
    + apply list_elem_of_In, elem_of_storage_keys. eauto.
    + rewrite Hp, andb_true_r. apply negb_true_iff, String.eqb_neq.
      by apply prefix_not_empty.
  - rewrite bool_decide_eq_false_2; [done|].
    intros Hin%list_elem_of_In%filter_In. destruct Hin as [_ Hb].
    rewrite Hp, andb_false_r in Hb. done.
Qed.

Lemma clearAll_memory st : memoryCache (clearAll st).2 = ∅.
Proof.
  unfold clearAll. rewrite bind_eq. cbn [snd]. by rewrite removeAll_memory.
Qed.

(** X11. [clearAll()] does not cancel what is in flight.  A request pending
    when the cache is cleared is still shared with later callers (no second
    fetch), and when it resolves its result is written back and served. *)
Theorem clearAll_keeps_in_flight (st : State) (key : string) (t : Z)
    (persist : bool) (d : Value) (w1 w2 later : Z) (t' : Z) (persist' : bool) :
  (get key st).1 = VNull ->
  inFlightRequests st !! key = None ->
  d <> VNull ->
  0 <= later < t ->
  let started := (deduplicatedFetch key t persist st).2 in
  let p := length (operations st) in
  let cleared := (clearAll (advance w1 started).2).2 in
  let joined := deduplicatedFetch key t' persist' cleared in
  let resolved := (settle p (Resolves d) (advance w2 joined.2).2).2 in
  joined.1 = Awaits p
  /\ occurrences (FetcherCalled key) joined.2
     = S (occurrences (FetcherCalled key) st)
  /\ (get key (advance later resolved).2).1 = d.
Proof.
  intros Hmiss Hfl Hd Hlater started p cleared joined resolved.
  destruct (deduplicatedFetch_starts key t persist st Hmiss Hfl)
    as (_ & _ & Hf & Ho & Hl & _ & _).
  fold started p in Hf, Ho, Hl.
  destruct (clearAll_frame (advance w1 started).2) as (Hf2 & Ho2 & Hl2 & _).
  fold cleared in Hf2, Ho2, Hl2.
  cbn [advance snd inFlightRequests operations log] in Hf2, Ho2, Hl2.
  assert (Hu : unservable key cleared).
  { split.
    - intros e. subst cleared. by rewrite clearAll_memory, lookup_empty.
    - intros e. subst cleared.
      by rewrite clearAll_storage, string_prefix_app_r. }
  assert (Hfl2 : inFlightRequests cleared !! key = Some p).
  { rewrite Hf2, Hf. apply lookup_insert_eq. }
  destruct (deduplicatedFetch_joins key t' persist' cleared p Hu Hfl2)
    as (Ha & _ & _ & Ho3 & Hl3).
  fold joined in Ha, Ho3, Hl3.
  assert (Hop : operations (advance w2 joined.2).2 !! p
                = Some (mkOp key t persist Pending)).
  { cbn [advance snd operations]. rewrite Ho3, Ho2, Ho. subst p.
    rewrite lookup_app_r, Nat.sub_diag by done. done. }
  destruct (settle_pending p (Resolves d) _ key t persist Hop)
    as (_ & _ & _ & Hm4 & _).
  fold resolved in Hm4. rewrite set_memory in Hm4.
  pose proof (settle_clock p (Resolves d) (advance w2 joined.2).2) as Hc4.
  fold resolved in Hc4.
  splits.
  - done.
  - rewrite (occurrences_same _ cleared) by done.
    rewrite (occurrences_same _ started) by done.
    rewrite (occurrences_log _ st _ _ Hl).
    rewrite bool_decide_eq_true_2 by done. lia.
  - rewrite (get_memory_hit key _
               (mkEntry d (clock (advance w2 joined.2).2) t));
      cbn [data ttl timestamp fst]; try done.
    + cbn [advance snd memoryCache]. rewrite Hm4. apply lookup_insert_eq.
    + lia.
    + cbn [advance snd clock] in *. rewrite Hc4. lia.
Qed.

Lemma clearAll_keeps_in_flight_witness :
  let started := (deduplicatedFetch "/v1/eche" SHORT true initial).2 in
  let cleared := (clearAll (advance 5 started).2).2 in
  let joined := deduplicatedFetch "/v1/eche" SHORT true cleared in
  let resolved := (settle 0 (Resolves (VNum 8)) (advance 5 joined.2).2).2 in
  joined.1 = Awaits 0%nat
  /\ (get "/v1/eche" (advance 100 resolved).2).1 = VNum 8.
Proof.
  assert (H100 : 0 <= 100 < SHORT) by (unfold SHORT; lia).
  assert (Hd : VNum 8 <> VNull) by discriminate.
  destruct (clearAll_keeps_in_flight initial "/v1/eche" SHORT true (VNum 8)
              5 5 100 SHORT true eq_refl eq_refl Hd H100) as (H1 & _ & H3).
  cbv zeta. split; [exact H1|exact H3].
Defined.

End CacheProofs.

(* ===================================================================== *)
(** * Properties of the HTTP client *)
(* ===================================================================== *)

Module ClientProofs.
Import Client.

Section Proofs.

Variable config : AmsClientConfig.
Variable net : nat -> FetchOutcome.

(** With fuel beyond the retries still allowed, the recursion ends. *)
Lemma fetchWithRetry_fuel_enough method ep ps : forall fuel attempt,
  maxRetries config - Z.of_nat attempt < Z.of_nat (S fuel) ->
  is_Some (fetchWithRetry_fuel config net (S fuel) method ep ps attempt).
Proof.
  intros fuel.
  induction fuel as [|fuel IH]; intros attempt Hfuel;
    cbn [fetchWithRetry_fuel];
    (destruct (net attempt) as [response|error];
     [ destruct (r_status response =? 401); [eauto|];
       destruct (negb (r_ok response)); [|eauto];
       destruct (500 <=? r_status response); cbn [andb]; [|eauto]
     | destruct (instanceof_Error error
                 && String.eqb (name error) "AbortError");
       [|destruct (instanceof_TypeError error
                   && includes "fetch" (error_message error)); [|eauto]] ]);
    (destruct (Z.of_nat attempt <? maxRetries config) eqn:Hlt; [|eauto]);
    apply Z.ltb_lt in Hlt; try lia;
    (destruct (IH (S attempt)) as [[res effs] Hres]; [lia|]);
    cbn [fetchWithRetry_fuel] in Hres; rewrite Hres; eauto.
Qed.

(** Any two amounts of fuel beyond the retries still allowed give the same
    run. *)
Lemma fetchWithRetry_fuel_irrelevant method ep ps : forall fuel fuel' attempt,
  maxRetries config - Z.of_nat attempt < Z.of_nat (S fuel) ->
  maxRetries config - Z.of_nat attempt < Z.of_nat (S fuel') ->
  fetchWithRetry_fuel config net (S fuel) method ep ps attempt
  = fetchWithRetry_fuel config net (S fuel') method ep ps attempt.
Proof.
  intros fuel.
  induction fuel as [|fuel IH]; intros fuel' attempt Hfuel Hfuel';
    [|remember (S fuel) as n eqn:En];
    cbn [fetchWithRetry_fuel];
    (destruct (net attempt) as [response|error];
     [ destruct (r_status response =? 401); [done|];
       destruct (negb (r_ok response)); [|done];
       destruct (500 <=? r_status response); cbn [andb]; [|done]
     | destruct (instanceof_Error error
                 && String.eqb (name error) "AbortError");
       [|destruct (instanceof_TypeError error
                   && includes "fetch" (error_message error)); [|done]] ]);
    (destruct (Z.of_nat attempt <? maxRetries config) eqn:Hlt; [|done]);
    apply Z.ltb_lt in Hlt; try lia;
    (destruct fuel' as [|fuel']; [lia|]);
    subst n; rewrite (IH fuel' (S attempt)) by lia; reflexivity.
Qed.

(** The recursive call made inside a run is the run from the next
    attempt. *)
Lemma fetchWithRetry_next method ep ps attempt :
  Z.of_nat attempt < maxRetries config ->
  fetchWithRetry_fuel config net (Z.to_nat (maxRetries config - Z.of_nat attempt))
    method ep ps (S attempt)
  = fetchWithRetry config net method ep ps (S attempt).
Proof.
  intros Hlt. unfold fetchWithRetry, attempts_left.
  destruct (Z.to_nat (maxRetries config - Z.of_nat attempt)) as [|fuel] eqn:E;
    [lia|].
  apply fetchWithRetry_fuel_irrelevant; lia.
Qed.

(** Every request returns a result. *)
Lemma fetchWithRetry_returns method ep ps attempt :
  is_Some (fetchWithRetry config net method ep ps attempt).
Proof.
  apply fetchWithRetry_fuel_enough. unfold attempts_left. lia.
Qed.

(** C4. A request that receives a 401 response, at any attempt and under
    any configuration (any [maxRetries]), performs no further [fetch] and
    no wait, invokes the configured [onUnauthorized] callback exactly
    once, and returns an ['http'] error with status 401. *)
Theorem unauthorized_not_retried (method : Method) (ep : string)
    (ps : option Params) (attempt : nat) (response : Response) :
  net attempt = Responds response ->
  r_status response = 401 ->
  exists error effs,
    fetchWithRetry config net method ep ps attempt = Some (Err error, effs)
    /\ type error = http
    /\ status error = Some 401
    /\ effs = Fetched method (baseUrl config +:+ ep) attempt
              :: match onUnauthorized config with
                 | Some cb => [Invoked cb]
                 | None => []
                 end
    /\ fetch_count effs = 1%nat
    /\ sleeps effs = []
    /\ (is_Some (onUnauthorized config) -> invoked_count effs = 1%nat).
Proof.
  intros Hnet H401. unfold fetchWithRetry, attempts_left.
  cbn [fetchWithRetry_fuel]. rewrite Hnet, H401. cbn [Z.eqb Pos.eqb].
  eexists _, _. split; [reflexivity|]. unfold call_onUnauthorized.
  destruct (onUnauthorized config) as [cb|]; cbn; repeat split;
    first [done | by intros [? ?]].
Qed.

(** C5. With [maxRetries = 2] and a server that answers 500 to every
    attempt, exactly three [fetch] calls are made, the waits before the
    two retries are [retryDelay * 1] and [retryDelay * 2], and the result
    is an ['http'] error with status 500. *)
Theorem server_error_three_attempts (method : Method) (ep : string)
    (ps : option Params) :
  maxRetries config = 2 ->
  (forall attempt, exists r, net attempt = Responds r /\ r_status r = 500) ->
  exists error effs,
    fetchWithRetry config net method ep ps 0 = Some (Err error, effs)
    /\ type error = http
    /\ status error = Some 500
    /\ effs = [Fetched method (baseUrl config +:+ ep) 0;
               Slept (retryDelay config * 1);
               Fetched method (baseUrl config +:+ ep) 1;
               Slept (retryDelay config * 2);
               Fetched method (baseUrl config +:+ ep) 2]
    /\ fetch_count effs = 3%nat
    /\ sleeps effs = [retryDelay config * 1; retryDelay config * 2].
Proof.
  intros Hmax Hnet. unfold fetchWithRetry, attempts_left.
  rewrite Hmax. change (S (Z.to_nat (2 - Z.of_nat 0))) with 3%nat.
  destruct (Hnet 0%nat) as (r0 & E0 & S0).
  destruct (Hnet 1%nat) as (r1 & E1 & S1).
  destruct (Hnet 2%nat) as (r2 & E2 & S2).
  cbn [fetchWithRetry_fuel]. unfold r_ok.
  rewrite E0, E1, E2, S0, S1, S2, Hmax. cbn.
  eexists _, _. split; [reflexivity|]. cbn. done.
Qed.

End Proofs.

Lemma unauthorized_not_retried_witness :
  exists error effs,
    fetchWithRetry defaultConfig always_401 GET "/v1/genata" None 0
    = Some (Err error, effs)
    /\ type error = http
    /\ status error = Some 401
    /\ effs = [Fetched GET "/api/v1/genata" 0; Invoked DefaultLogout].
Proof.
  destruct (unauthorized_not_retried defaultConfig always_401 GET
              "/v1/genata" None 0 _ eq_refl eq_refl)
    as (error & effs & H1 & H2 & H3 & H4 & _).
  exists error, effs. repeat split; assumption.
Defined.

Lemma server_error_three_attempts_witness :
  exists error effs,
    fetchWithRetry defaultConfig always_500 GET "/v1/genata" None 0
    = Some (Err error, effs)
    /\ status error = Some 500
    /\ fetch_count effs = 3%nat
    /\ sleeps effs = [1000; 2000].
Proof.
  destruct (server_error_three_attempts defaultConfig always_500 GET
              "/v1/genata" None eq_refl
              (fun attempt => ex_intro _ _ (conj eq_refl eq_refl)))
    as (error & effs & H1 & _ & H3 & _ & H5 & H6).
  exists error, effs. repeat split; assumption.
Defined.

(** ** Whole runs of a request *)

Ltac conjs := repeat match goal with |- _ /\ _ => split end.

(** What one attempt decides: the request ends with a result (after the
    further effects [more]), or waits [ms] and tries again. *)
Inductive Verdict :=
| Finish (res : AmsResult) (more : list Effect)
| Again (ms : Z).

Section Runs.

Variable config : AmsClientConfig.
Variable net : nat -> FetchOutcome.
Variable method : Method.
Variable ep : string.
Variable ps : option Params.

Definition verdict (attempt : nat) : Verdict :=
  match net attempt with
  | Responds response =>
      if r_status response =? 401 then
        Finish (Err (createError http "Unauthorized - session expired" ep ps
                       (Some 401) (Some "Unauthorized")))
               (call_onUnauthorized config)
      else if negb (r_ok response) then
        if (500 <=? r_status response)
           && (Z.of_nat attempt <? maxRetries config)
        then Again (retryDelay config * (Z.of_nat attempt + 1))
        else
          Finish (Err (createError http
                         ("HTTP " +:+ pretty (r_status response) +:+ ": "
                          +:+ default (r_statusText response) (text response))
                         ep ps (Some (r_status response))
                         (Some (r_statusText response))))
                 []
      else Finish (parseResponse response ep) []
  | Throws error =>
      if instanceof_Error error && String.eqb (name error) "AbortError"
      then
        if Z.of_nat attempt <? maxRetries config
        then Again (retryDelay config)
        else
          Finish (Err (createError timeout
                         ("Request timed out after "
                          +:+ pretty (timeout_ms config) +:+ "ms")
                         ep ps None None))
                 []
      else if instanceof_TypeError error
              && includes "fetch" (error_message error)
      then
        if Z.of_nat attempt <? maxRetries config
        then Again (retryDelay config * (Z.of_nat attempt + 1))
        else
          Finish (Err (createError network
                         "Network error - check your connection"
                         ep ps None None))
                 []
      else
        Finish (Err (createError unknown
                       (if instanceof_Error error then error_message error
                        else "Unknown error occurred")
                       ep ps None None))
               []
  end.

Definition url : string := baseUrl config +:+ ep.

Lemma fetchWithRetry_fuel_S fuel attempt :
  fetchWithRetry_fuel config net (S fuel) method ep ps attempt
  = match verdict attempt with
    | Finish res more => Some (res, Fetched method url attempt :: more)
    | Again ms =>
        match fetchWithRetry_fuel config net fuel method ep ps (S attempt) with
        | Some (res, effs) =>
            Some (res, Fetched method url attempt :: Slept ms :: effs)
        | None => None
        end
    end.
Proof.
  unfold verdict, url. cbn [fetchWithRetry_fuel].
  destruct (net attempt) as [response|error].
  - destruct (r_status response =? 401); [done|].
    destruct (negb (r_ok response)); [|done].
    by destruct ((500 <=? r_status response)
                 && (Z.of_nat attempt <? maxRetries config)).
  - destruct (instanceof_Error error && String.eqb (name error) "AbortError").
    { by destruct (Z.of_nat attempt <? maxRetries config). }
    destruct (instanceof_TypeError error
              && includes "fetch" (error_message error)); [|done].
    by destruct (Z.of_nat attempt <? maxRetries config).
Qed.

Lemma verdict_again attempt ms :
  verdict attempt = Again ms -> Z.of_nat attempt < maxRetries config.
Proof.
  unfold verdict. intros H. apply Z.ltb_lt.
  destruct (net attempt) as [response|error].
  - destruct (r_status response =? 401); [done|].
    destruct (negb (r_ok response)); [|done].
    destruct (500 <=? r_status response); [|done].
    by destruct (Z.of_nat attempt <? maxRetries config).
  - destruct (instanceof_Error error && String.eqb (name error) "AbortError").
    { by destruct (Z.of_nat attempt <? maxRetries config). }
    destruct (instanceof_TypeError error
              && includes "fetch" (error_message error)); [|done].
    by destruct (Z.of_nat attempt <? maxRetries config).
Qed.

(** The equation the source gives for [fetchWithRetry]. *)
Lemma fetchWithRetry_unfold attempt :
  fetchWithRetry config net method ep ps attempt
  = match verdict attempt with
    | Finish res more => Some (res, Fetched method url attempt :: more)
    | Again ms =>
        match fetchWithRetry config net method ep ps (S attempt) with
        | Some (res, effs) =>
            Some (res, Fetched method url attempt :: Slept ms :: effs)
        | None => None
        end
    end.
Proof.
  unfold fetchWithRetry at 1. unfold attempts_left.
  rewrite fetchWithRetry_fuel_S.
  destruct (verdict attempt) as [res more|ms] eqn:Ev; [done|].
  by rewrite fetchWithRetry_next by by eapply verdict_again.
Qed.

(** Induction over the attempts of a run, last attempt first. *)
Lemma run_ind (P : nat -> AmsResult -> list Effect -> Prop) :
  (forall attempt res more,
     verdict attempt = Finish res more ->
     P attempt res (Fetched method url attempt :: more)) ->
  (forall attempt ms res effs,
     verdict attempt = Again ms ->
     fetchWithRetry config net method ep ps (S attempt) = Some (res, effs) ->
     P (S attempt) res effs ->
     P attempt res (Fetched method url attempt :: Slept ms :: effs)) ->
  forall attempt res effs,
    fetchWithRetry config net method ep ps attempt = Some (res, effs) ->
    P attempt res effs.
Proof.
  intros Hfin Hagain attempt.
  remember (Z.to_nat (maxRetries config - Z.of_nat attempt)) as k eqn:Ek.
  revert attempt Ek.
  induction k as [|k IH]; intros attempt Ek res effs;
    rewrite fetchWithRetry_unfold;
    destruct (verdict attempt) as [res0 more|ms] eqn:Ev;
    try (intros [= <- <-]; by apply Hfin).
  - apply verdict_again in Ev. lia.
  - pose proof (verdict_again _ _ Ev) as Hlt.
    destruct (fetchWithRetry config net method ep ps (S attempt))
      as [[res1 effs1]|] eqn:Er; [|done].
    intros [= <- <-]. apply Hagain; [done|done|].
    apply IH; [lia|done].
Qed.

Lemma finish_effects attempt res more :
  verdict attempt = Finish res more ->
  fetch_count more = 0%nat /\ sleeps more = []
  /\ (invoked_count more <= 1)%nat
  /\ (invoked_count more = 1%nat <->
      is_Some (onUnauthorized config)
      /\ exists e, res = Err e /\ type e = http /\ status e = Some 401).
Proof.
  unfold verdict.
  assert (Hno : forall e, type e <> http \/ status e <> Some 401 ->
    (0 = 1)%nat <->
      is_Some (onUnauthorized config)
      /\ exists e', Err e = Err e' /\ type e' = http /\ status e' = Some 401).
  { intros e He. split; [done|]. intros [_ (e' & [= <-] & H1 & H2)].
    destruct He; done. }
  destruct (net attempt) as [response|error].
  - destruct (r_status response =? 401) eqn:E401.
    { intros [= <- <-]. unfold call_onUnauthorized.
      destruct (onUnauthorized config) as [cb|]; cbn; conjs; try done; try lia.
      - split; [|done]. intros _. split; [by eexists|]. by eexists.
      - split; [done|]. by intros [[? ?] _]. }
    apply Z.eqb_neq in E401.
    destruct (negb (r_ok response)).
    + destruct ((500 <=? r_status response)
                && (Z.of_nat attempt <? maxRetries config)); [done|].
      intros [= <- <-]. cbn. conjs; try done; try lia.
      apply Hno. right. cbn. congruence.
    + intros [= <- <-]. cbn. conjs; try done; try lia.
      unfold parseResponse.
      repeat case_match; try (apply Hno; by left).
      all: split; [done|]; by intros [_ (e' & ? & _)].
  - destruct (instanceof_Error error && String.eqb (name error) "AbortError").
    { destruct (Z.of_nat attempt <? maxRetries config); [done|].
      intros [= <- <-]. cbn. conjs; try done; try lia.
      apply Hno. by left. }
    destruct (instanceof_TypeError error
              && includes "fetch" (error_message error)).
    { destruct (Z.of_nat attempt <? maxRetries config); [done|].
      intros [= <- <-]. cbn. conjs; try done; try lia.
      apply Hno. by left. }
    intros [= <- <-]. cbn. conjs; try done; try lia.
    apply Hno. by left.
Qed.

(** X12. Whatever the network does, a request calls [fetch] at least once
    and at most [maxRetries + 1] times (once when [maxRetries] is not
    positive), and waits exactly once between two consecutive calls. *)
Theorem retry_bound (res : AmsResult) (effs : list Effect) :
  fetchWithRetry config net method ep ps 0 = Some (res, effs) ->
  (1 <= fetch_count effs)%nat
  /\ Z.of_nat (fetch_count effs) <= Z.max 0 (maxRetries config) + 1
  /\ length (sleeps effs) = pred (fetch_count effs).
Proof.
  intros Hrun.
  assert (H : (1 <= fetch_count effs)%nat
    /\ Z.of_nat (fetch_count effs) + Z.of_nat 0
       <= Z.max (Z.of_nat 0) (maxRetries config) + 1
    /\ length (sleeps effs) = pred (fetch_count effs)); [|lia].
  revert Hrun.
  apply (run_ind (fun attempt res effs =>
    (1 <= fetch_count effs)%nat
    /\ Z.of_nat (fetch_count effs) + Z.of_nat attempt
       <= Z.max (Z.of_nat attempt) (maxRetries config) + 1
    /\ length (sleeps effs) = pred (fetch_count effs))).
  - intros attempt res0 more Hv.
    destruct (finish_effects _ _ _ Hv) as (Hf & Hs & _).
    unfold fetch_count, sleeps in *. cbn. rewrite Hf, Hs. cbn. lia.
  - intros attempt ms res0 effs0 Hv _ (H1 & H2 & H3).
    apply verdict_again in Hv.
    unfold fetch_count, sleeps in *. cbn. rewrite H3. lia.
Qed.

(** X13. The unauthorized callback is invoked at most once per request, and
    it is invoked exactly when one is configured and the request ends with
    the 401 error: no other outcome, and no retry on the way, triggers
    it. *)
Theorem callback_only_on_401 (attempt : nat) (res : AmsResult)
    (effs : list Effect) :
  fetchWithRetry config net method ep ps attempt = Some (res, effs) ->
  (invoked_count effs <= 1)%nat
  /\ (invoked_count effs = 1%nat <->
      is_Some (onUnauthorized config)
      /\ exists e, res = Err e /\ type e = http /\ status e = Some 401).
Proof.
  apply (run_ind (fun attempt res effs =>
    (invoked_count effs <= 1)%nat
    /\ (invoked_count effs = 1%nat <->
        is_Some (onUnauthorized config)
        /\ exists e, res = Err e /\ type e = http /\ status e = Some 401))).
  - intros a res0 more Hv.
    destruct (finish_effects _ _ _ Hv) as (_ & _ & H1 & H2). done.
  - intros a ms res0 effs0 _ _ IH. done.
Qed.

(** The effects of a run that waits [ms i] after each attempt [i] from
    [attempt] up to [last], where it ends. *)
Fixpoint retried (ms : nat -> Z) (attempt : nat) (count : nat)
    (final : list Effect) : list Effect :=
  match count with
  | O => final
  | S count' =>
      Fetched method url attempt :: Slept (ms attempt)
      :: retried ms (S attempt) count' final
  end.

Lemma retries_then_finish (ms : nat -> Z) res more : forall count attempt,
  (forall i, (attempt <= i < attempt + count)%nat -> verdict i = Again (ms i)) ->
  verdict (attempt + count)%nat = Finish res more ->
  fetchWithRetry config net method ep ps attempt
  = Some (res, retried ms attempt count
                 (Fetched method url (attempt + count)%nat :: more)).
Proof.
  induction count as [|count IH]; intros attempt Hagain Hfin;
    rewrite fetchWithRetry_unfold.
  - rewrite Nat.add_0_r in *. by rewrite Hfin.
  - rewrite (Hagain attempt) by lia.
    rewrite (IH (S attempt)).
    + cbn [retried]. by rewrite Nat.add_succ_r.
    + intros i Hi. apply Hagain. lia.
    + by rewrite Nat.add_succ_r in Hfin.
Qed.

Lemma retried_counts ms final : forall count attempt,
  fetch_count (retried ms attempt count final)
  = (count + fetch_count final)%nat
  /\ sleeps (retried ms attempt count final)
     = List.map ms (seq attempt count) ++ sleeps final
  /\ invoked_count (retried ms attempt count final) = invoked_count final.
Proof.
  induction count as [|count IH]; intros attempt; [done|].
  destruct (IH (S attempt)) as (H1 & H2 & H3).
  unfold fetch_count, sleeps, invoked_count in *. cbn. by rewrite H1, H2, H3.
Qed.

Lemma verdict_server_error attempt r :
  net attempt = Responds r -> 500 <= r_status r ->
  verdict attempt
  = if Z.of_nat attempt <? maxRetries config
    then Again (retryDelay config * (Z.of_nat attempt + 1))
    else Finish (Err (createError http
                        ("HTTP " +:+ pretty (r_status r) +:+ ": "
                         +:+ default (r_statusText r) (text r))
                        ep ps (Some (r_status r)) (Some (r_statusText r))))
                [].
Proof.
  intros Hnet Hs. unfold verdict, r_ok. rewrite Hnet.
  rewrite (proj2 (Z.eqb_neq (r_status r) 401)) by lia.
  rewrite (proj2 (Z.leb_gt (r_status r) 299)) by lia.
  rewrite andb_false_r. cbn [negb].
  by rewrite (proj2 (Z.leb_le 500 (r_status r))) by lia.
Qed.

(** X14. When every attempt is answered with a server error (status 500 or
    above), the request makes [maxRetries + 1] calls, waits [retryDelay],
    [2 * retryDelay], ..., [maxRetries * retryDelay] between them, never
    invokes the unauthorized callback, and returns an ['http'] error with
    the status of the last answer. *)
Theorem server_errors_exhaust_retries (n : nat) :
  maxRetries config = Z.of_nat n ->
  (forall i, exists r, net i = Responds r /\ 500 <= r_status r) ->
  exists e effs r,
    fetchWithRetry config net method ep ps 0 = Some (Err e, effs)
    /\ net n = Responds r
    /\ type e = http
    /\ status e = Some (r_status r)
    /\ fetch_count effs = S n
    /\ sleeps effs
       = List.map (fun i => retryDelay config * (Z.of_nat i + 1)) (seq 0 n)
    /\ invoked_count effs = 0%nat.
Proof.
  intros Hmax Hnet. destruct (Hnet n) as (r & Hr & Hs).
  eexists _, _, r.
  split.
  { apply (retries_then_finish
             (fun i => retryDelay config * (Z.of_nat i + 1)) _ [] n 0%nat).
    - intros i Hi. destruct (Hnet i) as (ri & Hri & Hsi).
      rewrite (verdict_server_error i ri) by done.
      by rewrite (proj2 (Z.ltb_lt _ _)) by lia.
    - cbn [Nat.add]. rewrite (verdict_server_error n r) by done.
      by rewrite (proj2 (Z.ltb_ge _ _)) by lia. }
  destruct (retried_counts
              (fun i => retryDelay config * (Z.of_nat i + 1))
              [Fetched method url (0 + n)%nat] n 0%nat) as (H1 & H2 & H3).
  rewrite H1, H2, H3. cbn. rewrite app_nil_r.
  conjs; try done. lia.
Qed.

Definition is_abort (e : Thrown) : bool :=
  instanceof_Error e && String.eqb (name e) "AbortError".

Definition is_connectivity (e : Thrown) : bool :=
  instanceof_TypeError e && includes "fetch" (error_message e).

(** X15. When every attempt times out, the request makes [maxRetries + 1]
    calls with the same wait [retryDelay] before each retry (no backoff),
    and returns a ['timeout'] error that names the configured timeout. *)
Theorem timeouts_exhaust_retries (n : nat) :
  maxRetries config = Z.of_nat n ->
  (forall i, exists e, net i = Throws e /\ is_abort e = true) ->
  exists e effs,
    fetchWithRetry config net method ep ps 0 = Some (Err e, effs)
    /\ type e = timeout
    /\ status e = None
    /\ message e
       = "Request timed out after " +:+ pretty (timeout_ms config) +:+ "ms"
    /\ fetch_count effs = S n
    /\ sleeps effs = replicate n (retryDelay config).
Proof.
  intros Hmax Hnet.
  assert (Hv : forall i, verdict i
    = if Z.of_nat i <? maxRetries config then Again (retryDelay config)
      else Finish (Err (createError timeout
                          ("Request timed out after "
                           +:+ pretty (timeout_ms config) +:+ "ms")
                          ep ps None None)) []).
  { intros i. destruct (Hnet i) as (e & He & Ha). unfold verdict, is_abort in *.
    by rewrite He, Ha. }
  eexists _, _. split.
  { apply (retries_then_finish (fun _ => retryDelay config) _ [] n 0%nat).
    - intros i Hi. rewrite Hv. by rewrite (proj2 (Z.ltb_lt _ _)) by lia.
    - cbn [Nat.add]. rewrite Hv. by rewrite (proj2 (Z.ltb_ge _ _)) by lia. }
  destruct (retried_counts (fun _ => retryDelay config)
              [Fetched method url (0 + n)%nat] n 0%nat) as (H1 & H2 & _).
  rewrite H1, H2. cbn. rewrite app_nil_r.
  conjs; try done; [lia|].
  clear. generalize 0%nat. induction n as [|k IH]; intros a; [done|].
  cbn. by rewrite IH.
Qed.

(** X16. When no attempt reaches the network, the request makes
    [maxRetries + 1] calls with the linear backoff of server errors and
    returns a ['network'] error. *)
Theorem connectivity_failures_exhaust_retries (n : nat) :
  maxRetries config = Z.of_nat n ->
  (forall i, exists e,
     net i = Throws e /\ is_abort e = false /\ is_connectivity e = true) ->
  exists e effs,
    fetchWithRetry config net method ep ps 0 = Some (Err e, effs)
    /\ type e = network
    /\ status e = None
    /\ fetch_count effs = S n
    /\ sleeps effs
       = List.map (fun i => retryDelay config * (Z.of_nat i + 1)) (seq 0 n).
Proof.
  intros Hmax Hnet.
  assert (Hv : forall i, verdict i
    = if Z.of_nat i <? maxRetries config
      then Again (retryDelay config * (Z.of_nat i + 1))
      else Finish (Err (createError network
                          "Network error - check your connection"
                          ep ps None None)) []).
  { intros i. destruct (Hnet i) as (e & He & Ha & Hc).
    unfold verdict, is_abort, is_connectivity in *. by rewrite He, Ha, Hc. }
  eexists _, _. split.
  { apply (retries_then_finish
             (fun i => retryDelay config * (Z.of_nat i + 1)) _ [] n 0%nat).
    - intros i Hi. rewrite Hv. by rewrite (proj2 (Z.ltb_lt _ _)) by lia.
    - cbn [Nat.add]. rewrite Hv. by rewrite (proj2 (Z.ltb_ge _ _)) by lia. }
  destruct (retried_counts
              (fun i => retryDelay config * (Z.of_nat i + 1))
              [Fetched method url (0 + n)%nat] n 0%nat) as (H1 & H2 & _).
  rewrite H1, H2. cbn. rewrite app_nil_r.
  conjs; try done. lia.
Qed.

(** X17. A request recovers from transient server errors: if the first [k]
    attempts are answered 5xx, [k] is within [maxRetries] and attempt [k]
    gets a 2xx answer, the result is that answer parsed, after [k + 1]
    calls. *)
Theorem recovers_after_server_errors (k : nat) (r : Response) :
  Z.of_nat k <= maxRetries config ->
  (forall i, (i < k)%nat ->
     exists ri, net i = Responds ri /\ 500 <= r_status ri) ->
  net k = Responds r ->
  r_ok r = true ->
  exists effs,
    fetchWithRetry config net method ep ps 0
    = Some (parseResponse r ep, effs)
    /\ fetch_count effs = S k
    /\ sleeps effs
       = List.map (fun i => retryDelay config * (Z.of_nat i + 1)) (seq 0 k)
    /\ invoked_count effs = 0%nat.
Proof.
  intros Hk Hfail Hr Hok. eexists. split.
  { apply (retries_then_finish
             (fun i => retryDelay config * (Z.of_nat i + 1)) _ [] k 0%nat).
    - intros i Hi. destruct (Hfail i) as (ri & Hri & Hsi); [lia|].
      rewrite (verdict_server_error i ri) by done.
      by rewrite (proj2 (Z.ltb_lt _ _)) by lia.
    - cbn [Nat.add]. unfold verdict. rewrite Hr, Hok.
      unfold r_ok in Hok. apply andb_true_iff in Hok as [H1 H2].
      apply Z.leb_le in H1, H2.
      by rewrite (proj2 (Z.eqb_neq (r_status r) 401)) by lia. }
  destruct (retried_counts
              (fun i => retryDelay config * (Z.of_nat i + 1))
              [Fetched method url (0 + k)%nat] k 0%nat) as (H1 & H2 & H3).
  rewrite H1, H2, H3. cbn. rewrite app_nil_r.
  conjs; try done. lia.
Qed.

(** X18. An answer that is neither a success, nor a 401, nor a server
    error (any other 4xx, for one) ends the request at once: no retry, no
    wait, no callback, an ['http'] error with that status. *)
Theorem client_error_not_retried (attempt : nat) (r : Response) :
  net attempt = Responds r ->
  r_ok r = false ->
  r_status r <> 401 ->
  r_status r < 500 ->
  exists e,
    fetchWithRetry config net method ep ps attempt
    = Some (Err e, [Fetched method url attempt])
    /\ type e = http
    /\ status e = Some (r_status r)
    /\ statusText e = Some (r_statusText r).
Proof.
  intros Hr Hok H401 H500. rewrite fetchWithRetry_unfold. unfold verdict.
  rewrite Hr, Hok. rewrite (proj2 (Z.eqb_neq _ _) H401).
  rewrite (proj2 (Z.leb_gt _ _) H500). cbn [negb andb].
  eexists. split; [reflexivity|]. done.
Qed.

(** X19. An exception that is neither the abort of the timeout nor a
    connectivity failure is never retried: the request ends at once with
    an ['unknown'] error carrying the exception's message. *)
Theorem unknown_exception_not_retried (attempt : nat) (err : Thrown) :
  net attempt = Throws err ->
  is_abort err = false ->
  is_connectivity err = false ->
  exists e,
    fetchWithRetry config net method ep ps attempt
    = Some (Err e, [Fetched method url attempt])
    /\ type e = unknown
    /\ message e = (if instanceof_Error err then error_message err
                    else "Unknown error occurred").
Proof.
  intros Hnet Ha Hc. rewrite fetchWithRetry_unfold. unfold verdict.
  unfold is_abort, is_connectivity in *. rewrite Hnet, Ha, Hc.
  eexists. split; [reflexivity|]. done.
Qed.

End Runs.

(** Networks for the examples: every call times out; the browser is
    offline; the server fails once and then answers; the resource does not
    exist; [fetch] throws something that is not an [Error]. *)
Definition always_abort (attempt : nat) : FetchOutcome :=
  Throws {| instanceof_Error := true; instanceof_TypeError := false;
            name := "AbortError";
            error_message := "The operation was aborted." |}.

Definition offline (attempt : nat) : FetchOutcome :=
  Throws {| instanceof_Error := true; instanceof_TypeError := true;
            name := "TypeError"; error_message := "Failed to fetch" |}.

Definition ok_response : Response :=
  {| r_status := 200; r_statusText := "OK";
     content_type := Some "application/json; charset=utf-8";
     text := None; json := Some (VArr [VNum 1]); text_json := None;
     body_error := "" |}.

Definition flaky (attempt : nat) : FetchOutcome :=
  match attempt with
  | O => always_500 O
  | S _ => Responds ok_response
  end.

Definition not_found_response : Response :=
  {| r_status := 404; r_statusText := "Not Found";
     content_type := None; text := Some "no such work package";
     json := None; text_json := None; body_error := "" |}.

Definition not_found (attempt : nat) : FetchOutcome :=
  Responds not_found_response.

Definition broken (attempt : nat) : FetchOutcome :=
  Throws {| instanceof_Error := false; instanceof_TypeError := false;
            name := ""; error_message := "" |}.

Lemma retry_bound_witness :
  exists res effs,
    fetchWithRetry defaultConfig flaky GET "/v1/eche" None 0 = Some (res, effs)
    /\ Z.of_nat (fetch_count effs) <= 3.
Proof.
  eexists _, _. split; [reflexivity|].
  exact (proj1 (proj2 (retry_bound defaultConfig flaky GET "/v1/eche" None
                         _ _ eq_refl))).
Defined.

Lemma callback_only_on_401_witness :
  exists res effs,
    fetchWithRetry defaultConfig always_500 GET "/v1/eche" None 0
    = Some (res, effs)
    /\ (invoked_count effs <= 1)%nat.
Proof.
  eexists _, _. split; [reflexivity|].
  exact (proj1 (callback_only_on_401 defaultConfig always_500 GET "/v1/eche"
                  None 0 _ _ eq_refl)).
Defined.

Lemma server_errors_exhaust_retries_witness :
  exists e effs,
    fetchWithRetry (configureClient defaultConfig
                      (mkPartial None None (Some 4) (Some 250) None))
      always_500 GET "/v1/eche" None 0 = Some (Err e, effs)
    /\ fetch_count effs = 5%nat
    /\ sleeps effs = [250; 500; 750; 1000].
Proof.
  assert (Hnet : forall i : nat,
            exists r, always_500 i = Responds r /\ 500 <= r_status r).
  { intros i. eexists. split; [reflexivity|]. cbn. lia. }
  destruct (server_errors_exhaust_retries
              (configureClient defaultConfig
                 (mkPartial None None (Some 4) (Some 250) None))
              always_500 GET "/v1/eche" None 4 eq_refl Hnet)
    as (e & effs & r & H1 & _ & _ & _ & H5 & H6 & _).
  exists e, effs. split; [exact H1|]. split; [exact H5|exact H6].
Defined.

Lemma timeouts_exhaust_retries_witness :
  exists e effs,
    fetchWithRetry defaultConfig always_abort GET "/v1/eche" None 0
    = Some (Err e, effs)
    /\ type e = timeout
    /\ message e = "Request timed out after 30000ms"
    /\ sleeps effs = [1000; 1000].
Proof.
  destruct (timeouts_exhaust_retries defaultConfig always_abort GET
              "/v1/eche" None 2 eq_refl
              (fun i => ex_intro _ _ (conj eq_refl eq_refl)))
    as (e & effs & H1 & H2 & _ & H4 & _ & H6).
  exists e, effs. split; [exact H1|]. split; [exact H2|].
  split; [exact H4|exact H6].
Defined.

Lemma connectivity_failures_exhaust_retries_witness :
  exists e effs,
    fetchWithRetry defaultConfig offline POST "/v1/eche" None 0
    = Some (Err e, effs)
    /\ type e = network
    /\ sleeps effs = [1000; 2000].
Proof.
  destruct (connectivity_failures_exhaust_retries defaultConfig offline POST
              "/v1/eche" None 2 eq_refl
              (fun i => ex_intro _ _ (conj eq_refl (conj eq_refl eq_refl))))
    as (e & effs & H1 & H2 & _ & _ & H5).
  exists e, effs. split; [exact H1|]. split; [exact H2|exact H5].
Defined.

Lemma recovers_after_server_errors_witness :
  exists effs,
    fetchWithRetry defaultConfig flaky GET "/v1/eche" None 0
    = Some (Ok (VArr [VNum 1]), effs)
    /\ fetch_count effs = 2%nat
    /\ sleeps effs = [1000].
Proof.
  assert (Hfail : forall i, (i < 1)%nat ->
            exists ri, flaky i = Responds ri /\ 500 <= r_status ri).
  { intros [|i] Hi; [|lia]. eexists. split; [reflexivity|]. cbn. lia. }
  assert (Hk : Z.of_nat 1 <= maxRetries defaultConfig)
    by (unfold defaultConfig; cbn; lia).
  destruct (recovers_after_server_errors defaultConfig flaky GET "/v1/eche"
              None 1 ok_response Hk Hfail eq_refl eq_refl)
    as (effs & H1 & H2 & H3 & _).
  exists effs. split; [exact H1|]. split; [exact H2|exact H3].
Defined.

Lemma client_error_not_retried_witness :
  exists e,
    fetchWithRetry defaultConfig not_found GET "/v1/wplist" None 0
    = Some (Err e, [Fetched GET "/api/v1/wplist" 0])
    /\ status e = Some 404.
Proof.
  assert (H401 : r_status not_found_response <> 401) by discriminate.
  assert (H500 : r_status not_found_response < 500) by (cbn; lia).
  destruct (client_error_not_retried defaultConfig not_found GET "/v1/wplist"
              None 0 not_found_response eq_refl eq_refl H401 H500)
    as (e & H1 & _ & H3 & _).
  exists e. split; [exact H1|exact H3].
Defined.

Lemma unknown_exception_not_retried_witness :
  exists e,
    fetchWithRetry defaultConfig broken GET "/v1/wplist" None 0
    = Some (Err e, [Fetched GET "/api/v1/wplist" 0])
    /\ type e = unknown
    /\ message e = "Unknown error occurred".
Proof.
  destruct (unknown_exception_not_retried defaultConfig broken GET
              "/v1/wplist" None 0 _ eq_refl eq_refl eq_refl)
    as (e & H1 & H2 & H3).
  exists e. split; [exact H1|]. split; [exact H2|exact H3].
Defined.

End ClientProofs.

(* ===================================================================== *)
(** * Properties of the referential bootstrapper *)
(* ===================================================================== *)

Module BootstrapProofs.
Import Bootstrap.

(** Once every fetch carries its [.catch(() => [])], the fan-in cannot
    reject: it yields, slot by slot, the fetched list or the empty one. *)
Lemma Promise_all_caught (fetched : Refs (Settled (list GenericRef))) :
  Promise_all (refs_map catch_empty fetched)
  = Fulfilled (refs_map shown fetched).
Proof.
  destruct fetched as [[] [] [] [] [] [] [] [] [] [] []]; reflexivity.
Qed.

(** The continuation of a running attempt, whatever happened to the
    module state in between. *)
Lemma fanIn_running (p : nat) fetched (st : State) :
  attempts st !! p = Some Running ->
  fanIn p fetched st
  = {| referentialStore := refs_map shown fetched;
       isBootstrapped := true;
       bootstrapPromise := None;
       attempts := <[p := Resolved]> (attempts st) |}.
Proof.
  intros Hp. unfold fanIn. rewrite Hp, Promise_all_caught. reflexivity.
Qed.

(** C8. A bootstrap run started from a state that is neither loaded nor
    loading, whose eleven fetches settle in any mix of successes and
    failures: the promise returned by [bootstrapReferentials()] resolves,
    the accessor of every list whose fetch failed returns the empty list,
    the accessor of every other list returns the fetched data, and
    [isReferentialsLoaded()] is true afterwards. *)
Theorem bootstrap_tolerates_partial_failure (st : State)
    (fetched : Refs (Settled (list GenericRef))) :
  isBootstrapped st = false ->
  bootstrapPromise st = None ->
  let started := bootstrapReferentials st in
  let finished := fanIn (length (attempts st)) fetched started.2 in
  status_of started.1 started.2 = Running
  /\ status_of started.1 finished = Resolved
  /\ accessors finished = refs_map shown fetched
  /\ isReferentialsLoaded finished = true
  /\ bootstrapPromise finished = None.
Proof.
  intros Hb Hp started finished.
  assert (Hst : started = (Joined (length (attempts st)),
                           {| referentialStore := referentialStore st;
                              isBootstrapped := isBootstrapped st;
                              bootstrapPromise := Some (length (attempts st));
                              attempts := attempts st ++ [Running] |})).
  { subst started. unfold bootstrapReferentials. by rewrite Hp, Hb. }
  assert (Hrun : attempts started.2 !! length (attempts st) = Some Running).
  { rewrite Hst. cbn. by rewrite lookup_app_r, Nat.sub_diag. }
  subst finished. rewrite (fanIn_running _ _ _ Hrun).
  rewrite Hst. cbn. rewrite lookup_app_r, Nat.sub_diag by done. cbn.
  rewrite list_lookup_insert_eq by (rewrite length_app; simpl; lia).
  done.
Qed.

Lemma bootstrap_tolerates_partial_failure_witness :
  let started := bootstrapReferentials initial in
  let finished := fanIn 0 one_failure started.2 in
  status_of started.1 finished = Resolved
  /\ getAcTypes finished = some_types
  /\ getAcFleet finished = []
  /\ getAtas finished = some_atas
  /\ isReferentialsLoaded finished = true.
Proof.
  destruct (bootstrap_tolerates_partial_failure initial one_failure
              eq_refl eq_refl) as (_ & H2 & H3 & H4 & _).
  cbv zeta. split; [exact H2|].
  split; [exact (f_equal acTypes H3)|].
  split; [exact (f_equal acFleet H3)|].
  split; [exact (f_equal atas H3)|exact H4].
Defined.

(** C3 as stated fails: [bootstrapReferentials()], then [resetBootstrap()]
    while the fan-out is in flight, then the fan-out completes.  The
    superseded attempt's lists are back in the snapshot and the loaded
    flag is set again. *)
Lemma late_result_survives_reset :
  let loading := (bootstrapReferentials initial).2 in
  let reset := resetBootstrap loading in
  let late := fanIn 0 one_failure reset in
  isReferentialsLoaded reset = false
  /\ getAcTypes reset = []
  /\ isReferentialsLoaded late = true
  /\ getAcTypes late = some_types
  /\ getAtas late = some_atas.
Proof. cbv zeta. repeat split; reflexivity. Qed.

(** C3 (as amended). [resetBootstrap()] called while the fan-out of attempt
    [p] is in flight empties the snapshot and clears the loaded flag and
    the in-progress handle at once; the attempt is not cancelled and its
    result is not discarded: when its fan-out completes, its lists replace
    the snapshot and the loaded flag is set. *)
Theorem reset_does_not_discard_late_result (st : State) (p : nat)
    (fetched : Refs (Settled (list GenericRef))) :
  attempts st !! p = Some Running ->
  let reset := resetBootstrap st in
  let late := fanIn p fetched reset in
  accessors reset = emptyStore
  /\ isReferentialsLoaded reset = false
  /\ bootstrapPromise reset = None
  /\ accessors late = refs_map shown fetched
  /\ isReferentialsLoaded late = true.
Proof.
  intros Hp reset late. subst late.
  rewrite (fanIn_running p fetched reset) by exact Hp.
  repeat split; reflexivity.
Qed.

Lemma reset_does_not_discard_late_result_witness :
  let reset := resetBootstrap (bootstrapReferentials initial).2 in
  let late := fanIn 0 one_failure reset in
  accessors reset = emptyStore
  /\ isReferentialsLoaded late = true
  /\ accessors late = refs_map shown one_failure.
Proof.
  destruct (reset_does_not_discard_late_result
              (bootstrapReferentials initial).2 0 one_failure eq_refl)
    as (H1 & _ & _ & H4 & H5).
  cbv zeta. split; [exact H1|]. split; [exact H5|exact H4].
Defined.

(** ** Idempotence *)

(** X20. [bootstrapReferentials()] is idempotent.  A call made while an
    attempt is running returns that attempt's promise and starts no second
    fan-out; a call made after the attempt completed returns at once and
    changes nothing; [waitForBootstrap()] waits for the running attempt and
    returns at once after it. *)
Theorem bootstrap_idempotent (st : State)
    (fetched : Refs (Settled (list GenericRef))) :
  isBootstrapped st = false ->
  bootstrapPromise st = None ->
  let first := bootstrapReferentials st in
  let second := bootstrapReferentials first.2 in
  let finished := fanIn (length (attempts st)) fetched second.2 in
  first.1 = Joined (length (attempts st))
  /\ second = first
  /\ length (attempts second.2) = S (length (attempts st))
  /\ waitForBootstrap second.2 = first.1
  /\ bootstrapReferentials finished = (Completed, finished)
  /\ waitForBootstrap finished = Completed.
Proof.
  intros Hb Hp first second finished.
  assert (Hfirst : first = (Joined (length (attempts st)),
                            {| referentialStore := referentialStore st;
                               isBootstrapped := isBootstrapped st;
                               bootstrapPromise := Some (length (attempts st));
                               attempts := attempts st ++ [Running] |})).
  { subst first. unfold bootstrapReferentials. by rewrite Hp, Hb. }
  assert (Hsecond : second = first).
  { subst second. rewrite Hfirst. reflexivity. }
  assert (Hrun : attempts second.2 !! length (attempts st) = Some Running).
  { rewrite Hsecond, Hfirst. cbn. by rewrite lookup_app_r, Nat.sub_diag. }
  subst finished. rewrite (fanIn_running _ _ _ Hrun).
  rewrite Hsecond, Hfirst. cbn. rewrite length_app. cbn.
  unfold waitForBootstrap. cbn. rewrite Hb.
  repeat split; lia.
Qed.

Lemma bootstrap_idempotent_witness :
  let first := bootstrapReferentials initial in
  let second := bootstrapReferentials first.2 in
  let finished := fanIn 0 one_failure second.2 in
  second = first
  /\ length (attempts second.2) = 1%nat
  /\ bootstrapReferentials finished = (Completed, finished).
Proof.
  destruct (bootstrap_idempotent initial one_failure eq_refl eq_refl)
    as (_ & H2 & H3 & _ & H5 & _).
  cbv zeta. split; [exact H2|]. split; [exact H3|exact H5].
Defined.

(** ** The in-progress handle *)

Lemma handle_step e st :
  (forall p, bootstrapPromise st = Some p -> attempts st !! p = Some Running) ->
  forall p, bootstrapPromise (step e st) = Some p ->
            attempts (step e st) !! p = Some Running.
Proof.
  intros Hinv p. destruct e as [|q fetched|]; cbn [step].
  - unfold bootstrapReferentials.
    destruct (bootstrapPromise st) as [p0|] eqn:Hp0.
    { cbn. rewrite Hp0. apply Hinv. }
    destruct (isBootstrapped st); cbn; [by rewrite Hp0|].
    intros [= <-]. by rewrite lookup_app_r, Nat.sub_diag.
  - unfold fanIn. destruct (attempts st !! q) as [[]|]; cbn;
      try done; apply Hinv.
  - done.
Qed.

(** X21. In every state the module can reach, by any sequence of bootstrap
    calls, fan-in arrivals and resets, the in-progress handle, when set,
    is the promise of an attempt that is still running: a caller that joins
    it never waits on an attempt that has already finished. *)
Theorem handle_is_running (evs : list Event) (p : nat) :
  let st := run_events evs initial in
  bootstrapPromise st = Some p ->
  bootstrapReferentials st = (Joined p, st)
  /\ attempts st !! p = Some Running.
Proof.
  intros st Hp. split.
  - unfold bootstrapReferentials. by rewrite Hp.
  - revert p Hp. subst st.
    assert (H : forall st0,
      (forall p, bootstrapPromise st0 = Some p ->
                 attempts st0 !! p = Some Running) ->
      forall p, bootstrapPromise (run_events evs st0) = Some p ->
                attempts (run_events evs st0) !! p = Some Running).
    { induction evs as [|e evs IH]; intros st0 Hinv; [done|].
      cbn. apply IH. by apply handle_step. }
    apply H. done.
Qed.

Lemma handle_is_running_witness :
  let st := run_events [EvBootstrap; EvReset; EvBootstrap;
                        EvFanIn 1 one_failure; EvReset; EvBootstrap] initial in
  bootstrapPromise st = Some 2%nat /\ attempts st !! 2%nat = Some Running.
Proof.
  split; [reflexivity|].
  exact (proj2 (handle_is_running
                  [EvBootstrap; EvReset; EvBootstrap;
                   EvFanIn 1 one_failure; EvReset; EvBootstrap] 2 eq_refl)).
Defined.

(** ** Lookups *)

(** X22. [findRefById] returns the first element of the list whose [ID] is
    the one asked for, and nothing exactly when no element has it. *)
Theorem findRefById_first_match (refs : list GenericRef) (id : Z) :
  match findRefById refs id with
  | Some r =>
      ID r = id
      /\ exists before after,
           refs = before ++ r :: after
           /\ Forall (fun x => ID x <> id) before
  | None => Forall (fun x => ID x <> id) refs
  end.
Proof.
  unfold findRefById. induction refs as [|x refs IH]; cbn; [done|].
  destruct (ID x =? id) eqn:E.
  - apply Z.eqb_eq in E. split; [done|]. by exists [], refs.
  - apply Z.eqb_neq in E. destruct (find _ refs) as [r|].
    + destruct IH as (Hid & before & after & -> & Hb).
      split; [done|]. exists (x :: before), after. split; [done|].
      by constructor.
    + by constructor.
Qed.

(** X23. [getRefLabel] is decided by the first reference with the given
    [ID]: its label when that is not empty, the fallback when it is empty;
    and the fallback when no reference has the [ID]. *)
Theorem getRefLabel_cases (refs : list GenericRef) (id : Z)
    (fallback : string) :
  (Forall (fun x => ID x <> id) refs ->
   getRefLabel refs id fallback = fallback)
  /\ (forall before r after,
        refs = before ++ r :: after ->
        Forall (fun x => ID x <> id) before ->
        ID r = id ->
        getRefLabel refs id fallback
        = if decide (LABEL r = "") then fallback else LABEL r).
Proof.
  pose proof (findRefById_first_match refs id) as Hf.
  unfold getRefLabel.
  destruct (findRefById refs id) as [r0|] eqn:E.
  - destruct Hf as (Hid & before0 & after0 & Hrefs & Hb0). split.
    + intros Hall. rewrite Hrefs in Hall.
      apply Forall_app in Hall as [_ Hall].
      apply Forall_cons in Hall as [Hr _]. done.
    + intros before r after Hrefs' Hb Hr.
      assert (r0 = r) as ->.
      { unfold findRefById in E. rewrite Hrefs' in E.
        clear -E Hb Hr. induction before as [|x before IH]; cbn in E.
        - by rewrite (proj2 (Z.eqb_eq _ _) Hr) in E; simplify_eq.
        - apply Forall_cons in Hb as [Hx Hb].
          rewrite (proj2 (Z.eqb_neq _ _) Hx) in E. by apply IH. }
      destruct (String.eqb_spec (LABEL r) "") as [He|He].
      * by rewrite decide_True.
      * by rewrite decide_False.
  - split; [done|]. intros before r after -> _ Hr.
    apply Forall_app in Hf as [_ Hf]. apply Forall_cons in Hf as [Hf _].
    done.
Qed.

Lemma getRefLabel_cases_witness :
  getRefLabel some_atas 32 "ATA-32" = "Landing gear"
  /\ getRefLabel some_atas 99 "ATA-99" = "ATA-99".
Proof.
  split.
  - apply (proj2 (getRefLabel_cases some_atas 32 "ATA-32")
             [ {| ID := 21; CODE := "21"; LABEL := "Air conditioning" |} ]
             {| ID := 32; CODE := "32"; LABEL := "Landing gear" |} []).
    + reflexivity.
    + repeat constructor; discriminate.
    + reflexivity.
  - apply (getRefLabel_cases some_atas 99 "ATA-99").
    repeat constructor; discriminate.
Defined.

(** X24. When the ATA list could not be fetched, an ATA label is the
    placeholder ["ATA-<id>"] whatever the identifier; so it is before any
    bootstrap and after a reset. *)
Theorem ata_label_placeholder (st : State) (p : nat)
    (fetched : Refs (Settled (list GenericRef))) (reason : string)
    (ataId : Z) :
  attempts st !! p = Some Running ->
  atas fetched = Rejected reason ->
  getAtaLabel ataId (fanIn p fetched st) = "ATA-" +:+ pretty ataId
  /\ getAtaLabel ataId (resetBootstrap st) = "ATA-" +:+ pretty ataId
  /\ getAtaLabel ataId initial = "ATA-" +:+ pretty ataId.
Proof.
  intros Hp Ha. rewrite (fanIn_running p fetched st Hp).
  unfold getAtaLabel. cbn. rewrite Ha. done.
Qed.

(** A fan-out in which only the ATA fetch fails. *)
Definition ata_failure : Refs (Settled (list GenericRef)) :=
  mkRefs (Fulfilled some_types) (Fulfilled []) (Fulfilled [])
         (Rejected "HTTP 500: down") (Fulfilled []) (Fulfilled [])
         (Fulfilled []) (Fulfilled []) (Fulfilled []) (Fulfilled [])
         (Fulfilled []).

Lemma ata_label_placeholder_witness :
  getAtaLabel 21 (fanIn 0 ata_failure (bootstrapReferentials initial).2)
  = "ATA-21".
Proof.
  apply (ata_label_placeholder (bootstrapReferentials initial).2 0 ata_failure
           "HTTP 500: down" 21); reflexivity.
Defined.

End BootstrapProofs.

(* ===================================================================== *)
(** * Properties of the aggregation helper *)
(* ===================================================================== *)

Module EndpointsProofs.
Import Endpoints.

Section Counts.

Variable number : Type.
Variable plus : number -> number -> number.
Infix "+" := plus.

(** C10. [computeDashboardCounts(w)]: [closedWO] is the sum of the five
    closed counters, the four parts and quote counters are the sums of
    their two sources, and the five remaining counters are copied. *)
Theorem computeDashboardCounts_spec (w : WpDetail number) :
  let c := computeDashboardCounts plus w in
  closedWO _ c
  = WO_Total_Routine_Closed _ w + WO_Total_RectWorks_Excl_Closed _ w
    + WO_Total_AddWorks_Closed _ w + WO_Total_RectWorks_Incl_Closed _ w
    + WO_Total_Storage_Closed _ w
  /\ partsToBeOrdered _ c
     = PARTS_TO_BE_ORDERED _ w + PARTS_TO_BE_ORDERED_POIN _ w
  /\ partsToBeIssued _ c
     = PARTS_TO_BE_ISSUED _ w + PARTS_TO_BE_ISSUED_POIN _ w
  /\ partsEtaPast _ c = PARTS_ETA_PAST _ w + PARTS_REQ_ETA_PAST _ w
  /\ cqToApprove _ c
     = BUYER_CQ_TO_APPROVE _ w + TECHOFFICE_CQ_TO_APPROVE _ w
  /\ totalWO _ c = WO_Total _ w
  /\ openMH _ c = WO_Total_MH_Opened _ w
  /\ closedMH _ c = WO_Total_MH_Closed _ w
  /\ partsInRfq _ c = PARTS_IN_RFQ _ w
  /\ toolsNotReturned _ c = TOOLS_NOT_RETURNED _ w.
Proof. cbv zeta. repeat split; reflexivity. Qed.

End Counts.

End EndpointsProofs.

(* ===================================================================== *)
(** * Properties of the typed fetch functions and of amsInit.ts *)
(* ===================================================================== *)

Module InitProofs.
Import Cache CacheProofs.

Lemma wpDetail_key acId wpId :
  makeCacheKey Endpoints.WP_DETAIL
    (Some (Endpoints.queryBuilders.wpDetail acId wpId))
  = "/v1/wpdetaillist?" +:+
    ("acid=" +:+ Endpoints.String_of_number acId +:+ "&echeworkpackid="
     +:+ Endpoints.String_of_number wpId).
Proof.
  unfold Endpoints.queryBuilders.wpDetail.
  generalize (Endpoints.String_of_number acId) as a.
  generalize (Endpoints.String_of_number wpId) as w.
  intros w a. vm_compute. reflexivity.
Qed.

Lemma woList_key wpId :
  makeCacheKey Endpoints.WO_LIST
    (Some (Endpoints.queryBuilders.woListByWorkpack wpId))
  = "/v1/eche?echeworkpackid=" +:+ pretty wpId.
Proof.
  unfold Endpoints.queryBuilders.woListByWorkpack, Endpoints.String_of_number.
  generalize (pretty wpId) as w. intros w. vm_compute. reflexivity.
Qed.

Lemma get_after_invalidatePrefix prefix key st :
  String.prefix prefix key = true ->
  memoryCache (invalidatePrefix prefix st).2 !! key = None
  /\ localStorage (invalidatePrefix prefix st).2 !! (STORAGE_PREFIX +:+ key)
     = None.
Proof.
  intros Hp. destruct (invalidatePrefix_tiers prefix st) as (Hm & Hs & _).
  by rewrite Hm, Hs, string_prefix_app, Hp.
Qed.

(** X25. After [invalidateWpCache(wpId)] neither the work-order list of
    that work package nor the detail of any work package of any aircraft
    can be served from the cache, at any later time: the keys that
    [fetchWoListByWorkpack] and [fetchWpDetail] build fall under the two
    invalidated prefixes. *)
Theorem invalidateWpCache_covers (st : State) (wpId : Z) (later : Z) :
  let st' := (advance later (Init.invalidateWpCache wpId st).2).2 in
  (get (makeCacheKey Endpoints.WO_LIST
          (Some (Endpoints.queryBuilders.woListByWorkpack wpId))) st').1
  = VNull
  /\ forall acId wpId',
       (get (makeCacheKey Endpoints.WP_DETAIL
               (Some (Endpoints.queryBuilders.wpDetail acId wpId'))) st').1
       = VNull.
Proof.
  intros st'. subst st'. unfold Init.invalidateWpCache. rewrite bind_eq.
  cbn [snd].
  set (st1 := (invalidatePrefix "/v1/wpdetaillist?" st).2).
  set (p2 := "/v1/eche?echeworkpackid=" +:+ pretty wpId).
  split.
  - rewrite woList_key. fold p2.
    destruct (get_after_invalidatePrefix p2 p2 st1) as (Hm & Hs).
    { apply string_prefix_refl. }
    rewrite get_served. cbn [advance snd memoryCache localStorage clock].
    by rewrite Hm, Hs.
  - intros acId wpId'. rewrite wpDetail_key.
    set (k := "/v1/wpdetaillist?" +:+ _).
    destruct (get_after_invalidatePrefix "/v1/wpdetaillist?" k st)
      as (Hm & Hs).
    { apply string_prefix_app_r. }
    fold st1 in Hm, Hs.
    destruct (invalidatePrefix_tiers p2 st1) as (Hm2 & Hs2 & _).
    rewrite get_served. cbn [advance snd memoryCache localStorage clock].
    rewrite Hm2, Hs2, Hm, Hs.
    by destruct (String.prefix p2 k),
                (String.prefix (STORAGE_PREFIX +:+ p2) (STORAGE_PREFIX +:+ k)).
Qed.

(** ** The cache and the rest of the storage *)

Lemma storage_outside_insert (m : gmap string StoredText) key t sk :
  String.prefix STORAGE_PREFIX sk = false ->
  <[STORAGE_PREFIX +:+ key := t]> m !! sk = m !! sk.
Proof.
  intros Hsk. apply lookup_insert_ne. intros <-.
  by rewrite string_prefix_app_r in Hsk.
Qed.

Lemma storage_outside_delete (m : gmap string StoredText) key sk :
  String.prefix STORAGE_PREFIX sk = false ->
  delete (STORAGE_PREFIX +:+ key) m !! sk = m !! sk.
Proof.
  intros Hsk. apply lookup_delete_ne. intros <-.
  by rewrite string_prefix_app_r in Hsk.
Qed.

Lemma get_outside key st sk :
  String.prefix STORAGE_PREFIX sk = false ->
  localStorage (get key st).2 !! sk = localStorage st !! sk.
Proof.
  intros Hsk. run.
  repeat (case_match; simpl in *; simplify_eq);
    rewrite ?storage_outside_delete; done.
Qed.

Lemma set_outside key d t persist st sk :
  String.prefix STORAGE_PREFIX sk = false ->
  localStorage (set key d t persist st).2 !! sk = localStorage st !! sk.
Proof.
  intros Hsk. rewrite set_storage.
  destruct (persist && (0 <? t)); [|done]. by apply storage_outside_insert.
Qed.

Lemma step_outside e st sk :
  String.prefix STORAGE_PREFIX sk = false ->
  localStorage (step e st) !! sk = localStorage st !! sk.
Proof.
  intros Hsk.
  destruct e as [key t persist|p o|d|key|key d t persist|key|prefix|];
    cbn [step].
  - unfold deduplicatedFetch. rewrite bind_eq. cbv beta.
    destruct (negb (is_null (get key st).1)); [by apply get_outside|].
    rewrite bind_eq. cbv beta. unfold getInFlight. cbn [fst snd].
    destruct (inFlightRequests (get key st).2 !! key);
      [by apply get_outside|].
    rewrite !bind_eq.
    cbn [call_fetcher setInFlight ret fst snd localStorage].
    by apply get_outside.
  - unfold settle.
    destruct (operations st !! p) as [[key t persist []]|]; try done.
    destruct o as [d|reason]; rewrite !bind_eq;
      cbn [settle_promise finally_callback snd localStorage]; [|done].
    by apply set_outside.
  - done.
  - by apply get_outside.
  - by apply set_outside.
  - unfold invalidate, bind, memory_delete, removeItem, with_storage.
    cbn [snd localStorage]. by apply storage_outside_delete.
  - destruct (invalidatePrefix_tiers prefix st) as (_ & Hs & _).
    rewrite Hs.
    destruct (String.prefix (STORAGE_PREFIX +:+ prefix) sk) eqn:Hp; [|done].
    apply string_prefix_app_l in Hp. congruence.
  - by rewrite clearAll_storage, Hsk.
Qed.

(** X26. Nothing the cache does, in any order and at any times, changes a
    storage item whose key lies outside the ['ams_cache_'] namespace: the
    session token and the session settings are as the login left them. *)
Theorem cache_stays_in_namespace (evs : list Event) (st : State) :
  (forall sk,
     String.prefix STORAGE_PREFIX sk = false ->
     localStorage (run_events evs st) !! sk = localStorage st !! sk)
  /\ (Api.getStoredToken (run_events evs st)).1 = (Api.getStoredToken st).1
  /\ localStorage (run_events evs st) !! Api.SETTINGS_KEY
     = localStorage st !! Api.SETTINGS_KEY.
Proof.
  assert (H : forall sk,
     String.prefix STORAGE_PREFIX sk = false ->
     localStorage (run_events evs st) !! sk = localStorage st !! sk).
  { intros sk Hsk. revert st.
    induction evs as [|e evs IH]; intros st; [done|].
    change (run_events (e :: evs) st) with (run_events evs (step e st)).
    rewrite IH. by apply step_outside. }
  split; [exact H|]. split; by apply H.
Qed.

Lemma cache_stays_in_namespace_witness :
  let st := (Api.saveToken "t0k3n" initial).2 in
  (Api.getStoredToken
     (run_events [EvSet "/v1/genata" (VStr "ATA") REFERENTIALS true;
                  EvFetch "/v1/eche" DEFAULT true;
                  EvSettle 0 (Resolves (VNum 1));
                  EvInvalidatePrefix "/v1"; EvClearAll] st)).1
  = Some (PlainText "t0k3n").
Proof.
  cbv zeta.
  rewrite (proj1 (proj2 (cache_stays_in_namespace
                           [EvSet "/v1/genata" (VStr "ATA") REFERENTIALS true;
                            EvFetch "/v1/eche" DEFAULT true;
                            EvSettle 0 (Resolves (VNum 1));
                            EvInvalidatePrefix "/v1"; EvClearAll]
                           (Api.saveToken "t0k3n" initial).2))).
  reflexivity.
Defined.

(** ** Typed fetch functions *)

(** X27. A typed fetch function keeps the data of a successful request but
    flattens every failure: whatever kind of error the HTTP client
    reported (['http'] with its status, ['timeout'], ['network'],
    ['parse']), the caller gets an error of type ['unknown'] without
    status, carrying only the client's message, the endpoint constant and
    the query. *)
Theorem typed_fetch_flattens_errors (st : State) (key : string) (t : Z)
    (persist : bool) (endpoint : string) (params : ParamObject)
    (result : Client.AmsResult) (wait : Z) :
  (get key st).1 = VNull ->
  inFlightRequests st !! key = None ->
  let call := deduplicatedFetch key t persist st in
  let settled :=
    (settle (length (operations st)) (Endpoints.fetcher_outcome result)
            (advance wait call.2).2).2 in
  Endpoints.typed_result endpoint params (observed call.1 call.2) = None
  /\ Endpoints.typed_result endpoint params (observed call.1 settled)
     = Some match result with
            | Client.Ok d => Client.Ok d
            | Client.Err e =>
                Client.Err
                  {| Client.type := Client.unknown;
                     Client.message := Client.message e;
                     Client.endpoint := endpoint;
                     Client.params := Some (Endpoints.error_params params);
                     Client.status := None; Client.statusText := None |}
            end.
Proof.
  intros Hmiss Hfl call settled.
  destruct (deduplicatedFetch_starts key t persist st Hmiss Hfl)
    as (Ha & _ & _ & Ho & _).
  fold call in Ha, Ho.
  assert (Hop : operations (advance wait call.2).2 !! length (operations st)
                = Some (mkOp key t persist Pending)).
  { cbn [advance snd operations]. rewrite Ho.
    rewrite lookup_app_r, Nat.sub_diag by done. done. }
  destruct (settle_pending _ (Endpoints.fetcher_outcome result) _ key t
              persist Hop) as (_ & _ & Hobs & _).
  fold settled in Hobs. rewrite Ha, Hobs. split.
  - unfold observed. rewrite Ho.
    rewrite lookup_app_r, Nat.sub_diag by done. done.
  - by destruct result.
Qed.

(** What the HTTP client returns for a 404. *)
Definition not_found_error : Client.AmsApiError :=
  Client.createError Client.http "HTTP 404: no such work package"
    "/v1/wpdetaillist?acid=12&echeworkpackid=7" None (Some 404)
    (Some "Not Found").

Lemma typed_fetch_flattens_errors_witness :
  let call := Endpoints.fetchWpDetail 12 7 initial in
  let settled :=
    (settle 0 (Endpoints.fetcher_outcome (Client.Err not_found_error))
            (advance 80 call.2).2).2 in
  exists e,
    Endpoints.typed_result Endpoints.WP_DETAIL
      (Endpoints.queryBuilders.wpDetail 12 7) (observed call.1 settled)
    = Some (Client.Err e)
    /\ Client.type e = Client.unknown
    /\ Client.status e = None
    /\ Client.message e = "HTTP 404: no such work package".
Proof.
  destruct (typed_fetch_flattens_errors initial
              (makeCacheKey Endpoints.WP_DETAIL
                 (Some (Endpoints.queryBuilders.wpDetail 12 7)))
              SHORT true Endpoints.WP_DETAIL
              (Endpoints.queryBuilders.wpDetail 12 7)
              (Client.Err not_found_error) 80 eq_refl eq_refl) as (_ & H).
  cbv zeta. eexists. split; [exact H|]. done.
Defined.

End InitProofs.

(* ===================================================================== *)
(** * Properties of the dashboard loader *)
(* ===================================================================== *)

Module DashboardProofs.
Import Init.

Section Loader.

Variables WorkPackage WorkOrder MovItem CustomerQuote : Type.

Abbreviation Api := (AmsApi WorkOrder MovItem CustomerQuote).
Abbreviation Data := (WpDashboardData WorkPackage WorkOrder MovItem CustomerQuote).
Abbreviation load := (loadWpDashboard WorkPackage WorkOrder MovItem CustomerQuote).
Abbreviation callError := (call_error WorkOrder MovItem CustomerQuote).












(** X30. Without a usable aircraft identifier (none given, and the
    registration missing, unknown or failing to resolve) the load stops
    after at most the registration lookup: no other request is made and
    the dashboard holds no data. *)
Theorem load_without_aircraft_id (api : Api) (order : list Loc)
    (params : LoadParams) :
  truthy_number (acId params) = false ->
  (forall reg a l, acReg params = Some reg ->
     byReg _ _ _ api reg = ok_true (a :: l) -> ACID a = 0) ->
  let r := (load api order params).1 in
  let calls := (load api order params).2 in
  (calls = [] \/ exists reg, acReg params = Some reg /\ calls = [CallByReg reg])
  /\ wpDetail _ _ _ _ r = None
  /\ counts _ _ _ _ r = None
  /\ workOrders _ _ _ _ r = []
  /\ d_rfqList _ _ _ _ r = []
  /\ d_reqList _ _ _ _ r = []
  /\ d_poinList _ _ _ _ r = []
  /\ d_customerQuotes _ _ _ _ r = [].
Proof.
  intros Hid Hreg r calls. subst r calls. unfold loadWpDashboard.
  unfold resolve_aircraft. rewrite Hid.
  destruct (acReg params) as [reg|] eqn:Er; cbn [negb andb].
  - rewrite andb_true_r.
    destruct (truthy_string (Some reg)).
    + destruct (byReg _ _ _ api reg) as [[|a l]|e] eqn:Eb.
      * rewrite Hid. cbn. split; [right; by exists reg|done].
      * cbn [truthy_number]. rewrite (Hreg reg a l eq_refl Eb). cbn.
        split; [right; by exists reg|done].
      * rewrite Hid. cbn. split; [right; by exists reg|done].
    + rewrite Hid. cbn. split; [by left|done].
  - rewrite Hid. cbn. split; [by left|done].
Qed.

End Loader.

(** An API for the examples: the aircraft resolves, the detail and the RFQ
    list fail, everything else succeeds. *)
Definition server_down : Client.AmsApiError :=
  {| Client.type := Client.unknown; Client.message := "HTTP 500: down";
     Client.endpoint := "/v1/wpdetaillist"; Client.params := None;
     Client.status := None; Client.statusText := None |}.

Definition sample_api : AmsApi string string string :=
  {| byReg := fun reg =>
       ok_true [ {| ACID := 12; AC_REG := reg; AC_MSN := "4711";
                    AC_TYPE := "A320"; CUSTOMER_ID := 3 |} ];
     detail := fun _ _ => ok_false server_down;
     listByWorkpack := fun _ => ok_true ["WO-1"; "WO-2"];
     rfqList := fun _ => ok_false server_down;
     reqList := fun _ _ => ok_true ["REQ-1"];
     poinList := fun _ _ _ => ok_true [];
     customerQuotes := fun _ _ _ => ok_true ["CQ-9"] |}.



Definition nothing_given : LoadParams :=
  {| acReg := None; acId := None; wpId := 7;
     locFromRefId := Some 4; locToRefId := Some 5 |}.



Lemma load_without_aircraft_id_witness :
  (loadWpDashboard unit string string string sample_api
     [LocReq; LocPoin; LocCq] nothing_given).2 = []
  /\ workOrders _ _ _ _
       (loadWpDashboard unit string string string sample_api
          [LocReq; LocPoin; LocCq] nothing_given).1 = [].
Proof.
  destruct (load_without_aircraft_id unit string string string sample_api
              [LocReq; LocPoin; LocCq] nothing_given eq_refl)
    as (Hcalls & _ & _ & Hwo & _).
  { intros reg a l Hreg. discriminate Hreg. }
  split; [|exact Hwo].
  destruct Hcalls as [H|(reg & Hreg & _)]; [exact H|discriminate Hreg].
Defined.

End DashboardProofs.
